(** * Unscented Kalman filter (src/src/ukf.cpp): a shallow embedding

    The C++ type [double] is idealised as the real numbers [R] of the
    Standard Library: [+ - * /], [sqrt], [sin], [cos] and [fabs] are the
    exact real operations, while the constant [M_PI] keeps the exact value
    of the double it is.  Rounding, overflow, NaN and infinities are
    outside this model; the two computations whose outcome they decide,
    the divisor of the radar range rate and a step of the normalisation
    loop, are also given in binary64 ([Binary64]).

    Eigen's dynamic [VectorXd] and [MatrixXd] are modelled as a size
    together with a coefficient function; only coefficients inside the
    size are meaningful.  The two Eigen decompositions the filter calls,
    [llt().matrixL()] and [inverse()], belong to the Eigen library and are
    parameters of the development.

    Timestamps are integers in microseconds, modelled in [Z]; their
    difference is taken without wrap-around. *)

From Stdlib Require Import Reals Lra Lia ZArith Bool String PeanoNat Machin.
From Stdlib Require PrimFloat.
From Equations Require Import Equations.

Local Open Scope R_scope.

(** ** Counted loops

    [for_loop n body a] is [for (int i = 0; i < n; ++i) a = body i a]. *)

Fixpoint for_loop {A : Type} (n : nat) (body : nat -> A -> A) (a : A) : A :=
  match n with
  | O => a
  | S k => body k (for_loop k body a)
  end.

(** [sum_upto n f] is the mathematical sum of [f 0 .. f (n-1)]. *)

Fixpoint sum_upto (n : nat) (f : nat -> R) : R :=
  match n with
  | O => 0
  | S k => sum_upto k f + f k
  end.

(** ** Eigen vectors and matrices *)

Record VectorXd : Type := mkVector {
  vsize : nat;
  vcoeff :> nat -> R
}.

Record MatrixXd : Type := mkMatrix {
  rows : nat;
  cols : nat;
  mcoeff :> nat -> nat -> R
}.

Module Eigen.

(** [VectorXd(n)] and [MatrixXd(r, c)]: fresh storage.  Its coefficients
    are indeterminate in C++; every use in ukf.cpp overwrites them before
    they are read (except [x_], which is only read once the filter is
    initialised), so the model starts them at 0. *)
Definition VectorXd_alloc (n : nat) : VectorXd := mkVector n (fun _ => 0).
Definition MatrixXd_alloc (r c : nat) : MatrixXd := mkMatrix r c (fun _ _ => 0).

(** [v.fill(c)], [m.fill(c)] *)
Definition vfill (v : VectorXd) (c : R) : VectorXd :=
  mkVector (vsize v) (fun _ => c).
Definition mfill (m : MatrixXd) (c : R) : MatrixXd :=
  mkMatrix (rows m) (cols m) (fun _ _ => c).

(** [v(i) = c], [m(i, j) = c] *)
Definition vset (v : VectorXd) (i : nat) (c : R) : VectorXd :=
  mkVector (vsize v) (fun k => if Nat.eqb k i then c else v k).
Definition mset (m : MatrixXd) (i j : nat) (c : R) : MatrixXd :=
  mkMatrix (rows m) (cols m)
    (fun r k => if Nat.eqb r i && Nat.eqb k j then c else m r k).

(** [v.head(n)] as a value, [dst.head(n) = src] and [dst.tail(n).fill(c)].
    Eigen requires [src] to have [n] coefficients. *)
Definition head (v : VectorXd) (n : nat) : VectorXd := mkVector n v.
Definition assign_head (dst : VectorXd) (n : nat) (src : VectorXd) : VectorXd :=
  mkVector (vsize dst) (fun k => if Nat.ltb k n then src k else dst k).
Definition fill_tail (dst : VectorXd) (n : nat) (c : R) : VectorXd :=
  mkVector (vsize dst)
    (fun k => if Nat.leb (vsize dst - n) k then c else dst k).

(** [m.col(j)] as a value and [m.col(j) = v] *)
Definition col (m : MatrixXd) (j : nat) : VectorXd :=
  mkVector (rows m) (fun r => m r j).
Definition assign_col (m : MatrixXd) (j : nat) (v : VectorXd) : MatrixXd :=
  mkMatrix (rows m) (cols m) (fun r k => if Nat.eqb k j then v r else m r k).

(** [dst.topLeftCorner(p, q) = src] *)
Definition assign_topLeftCorner (dst : MatrixXd) (p q : nat) (src : MatrixXd)
  : MatrixXd :=
  mkMatrix (rows dst) (cols dst)
    (fun r k => if Nat.ltb r p && Nat.ltb k q then src r k else dst r k).

(** Coefficient-wise arithmetic *)
Definition vadd (a b : VectorXd) : VectorXd :=
  mkVector (vsize a) (fun k => a k + b k).
Definition vsub (a b : VectorXd) : VectorXd :=
  mkVector (vsize a) (fun k => a k - b k).
Definition vscale (c : R) (a : VectorXd) : VectorXd :=
  mkVector (vsize a) (fun k => c * a k).
Definition madd (a b : MatrixXd) : MatrixXd :=
  mkMatrix (rows a) (cols a) (fun r k => a r k + b r k).
Definition msub (a b : MatrixXd) : MatrixXd :=
  mkMatrix (rows a) (cols a) (fun r k => a r k - b r k).
Definition mscale (a : MatrixXd) (c : R) : MatrixXd :=
  mkMatrix (rows a) (cols a) (fun r k => a r k * c).

(** [MatrixXd::Identity(n, n)] and [m.transpose()] *)
Definition Identity (n p : nat) : MatrixXd :=
  mkMatrix n p (fun r k => if Nat.eqb r k then 1 else 0).
Definition transpose (m : MatrixXd) : MatrixXd :=
  mkMatrix (cols m) (rows m) (fun r k => m k r).

(** Products: matrix by matrix, matrix by vector, and the outer product
    [a * b.transpose()] of two vectors. *)
Definition mmul (a b : MatrixXd) : MatrixXd :=
  mkMatrix (rows a) (cols b)
    (fun r k => sum_upto (cols a) (fun j => a r j * b j k)).
Definition mvec (a : MatrixXd) (v : VectorXd) : VectorXd :=
  mkVector (rows a) (fun r => sum_upto (cols a) (fun j => a r j * v j)).
Definition outer (a b : VectorXd) : MatrixXd :=
  mkMatrix (vsize a) (vsize b) (fun r k => a r * b k).

End Eigen.
Import Eigen.

(** ** libm *)

(** The constant [M_PI] of <cmath> is the double 0x1.921fb54442d18p+1,
    that is 884279719003555 / 2^48: the double nearest to pi, and
    strictly below it. *)
Definition M_PI : R := 884279719003555 / 281474976710656.
Definition fabs (x : R) : R := Rabs x.

(** [atan2(y, x)] as the two-argument arctangent of real analysis, with
    values in (-pi, pi].  The reals have no signed zero, so the value
    -pi that C returns for [atan2(-0.0, x)] with [x < 0] does not occur. *)
Definition atan2 (y x : R) : R :=
  if Rlt_dec 0 x then atan (y / x)
  else if Rlt_dec x 0 then
    (if Rle_dec 0 y then atan (y / x) + PI else atan (y / x) - PI)
  else if Rlt_dec 0 y then PI / 2
  else if Rlt_dec y 0 then - (PI / 2)
  else 0.

(** ** Angle normalisation

    The two loops
    [while (d > M_PI) d -= 2. * M_PI;  while (d < -M_PI) d += 2. * M_PI;]
    that follow every angle difference in ukf.cpp.  Over the reals each
    loop terminates; the number of remaining iterations is the measure.
    On doubles a difference so large that a turn is below its rounding
    step is left as it is by the loop body ([Binary64.turn_down]): there
    the loop does not end and returns no value. *)

Definition turns_above (d : R) : nat := Z.to_nat (up ((d - M_PI) / (2 * M_PI))).
Definition turns_below (d : R) : nat := Z.to_nat (up ((- M_PI - d) / (2 * M_PI))).

(** One pass through a loop body removes one turn from the measure. *)
Ltac one_turn_less :=
  match goal with
  | |- (Z.to_nat (up (?y - 1)) < Z.to_nat (up ?y))%nat =>
      let Hy := fresh "Hy" in
      assert (Hy : 0 < y) by (apply Rdiv_lt_0_compat; lra);
      let Hup1 := fresh "Hup" in
      let Hup2 := fresh "Hup" in
      destruct (archimed y) as [Hup1 Hup2];
      replace (up (y - 1)) with (up y - 1)%Z
        by (apply tech_up; rewrite minus_IZR; lra);
      assert (0 < up y)%Z by (apply lt_IZR; lra);
      lia
  end.

Equations? while_above (d : R) : R by wf (turns_above d) lt :=
  while_above d with Rgt_dec d M_PI := {
    | left _ => while_above (d - 2 * M_PI);
    | right _ => d }.
Proof.
  unfold turns_above.
  assert (Hpi : 0 < M_PI) by (unfold M_PI; lra).
  replace ((d - 2 * M_PI - M_PI) / (2 * M_PI))
    with ((d - M_PI) / (2 * M_PI) - 1) by (field; lra).
  one_turn_less.
Qed.

Equations? while_below (d : R) : R by wf (turns_below d) lt :=
  while_below d with Rlt_dec d (- M_PI) := {
    | left _ => while_below (d + 2 * M_PI);
    | right _ => d }.
Proof.
  unfold turns_below.
  assert (Hpi : 0 < M_PI) by (unfold M_PI; lra).
  replace ((- M_PI - (d + 2 * M_PI)) / (2 * M_PI))
    with ((- M_PI - d) / (2 * M_PI) - 1) by (field; lra).
  one_turn_less.
Qed.

Definition normalize_angle (d : R) : R := while_below (while_above d).

(** [v(k)] normalised in place *)
Definition normalize_at (k : nat) (v : VectorXd) : VectorXd :=
  vset v k (normalize_angle (v k)).

(** ** The filter object *)

(** Modelled from the spec: measurement_package.h is not among the sources.
    The sensor tag is the enumeration [LASER], [RADAR]; [UNKNOWN] stands
    for any other value the tag may hold. *)
Inductive SensorType : Type := LASER | RADAR | UNKNOWN.

(** Modelled from the spec: measurement_package.h is not among the sources.
    One sample: the sensor tag, the raw values (2 for [LASER]: x, y; 3 for
    [RADAR]: range, bearing, range rate) and a timestamp in microseconds. *)
Record MeasurementPackage : Type := mkMeasurementPackage {
  sensor_type_ : SensorType;
  raw_measurements_ : VectorXd;
  timestamp_ : Z
}.

(** Modelled from the spec: ukf.h is not among the sources.  The fields are
    those ukf.cpp reads and writes, with the types its expressions give
    them; the integer dimensions are small constants and are kept as
    [nat]; the stored timestamp is a [Z]. *)
Record UKF : Type := mkUKF {
  is_initialized_ : bool;
  use_laser_ : bool;
  use_radar_ : bool;
  x_ : VectorXd;
  P_ : MatrixXd;
  Xsig_pred_ : MatrixXd;
  Xsig_aug_ : MatrixXd;
  time_ : Z;
  std_a_ : R;
  std_yawdd_ : R;
  std_laspx_ : R;
  std_laspy_ : R;
  std_radr_ : R;
  std_radphi_ : R;
  std_radrd_ : R;
  n_x_ : nat;
  n_aug_ : nat;
  n_z_ : nat;
  lambda_ : R;
  weights_ : VectorXd;
  Zsig_ : MatrixXd;
  H_ : MatrixXd;
  RL_ : MatrixXd;
  RR_ : MatrixXd
}.

(** Assignment to one field, [s.f = v]. *)

Definition set_is_initialized_ (s : UKF) (v : bool) : UKF :=
  mkUKF v (use_laser_ s) (use_radar_ s) (x_ s) (P_ s) (Xsig_pred_ s)
    (Xsig_aug_ s) (time_ s) (std_a_ s) (std_yawdd_ s) (std_laspx_ s)
    (std_laspy_ s) (std_radr_ s) (std_radphi_ s) (std_radrd_ s) (n_x_ s)
    (n_aug_ s) (n_z_ s) (lambda_ s) (weights_ s) (Zsig_ s) (H_ s) (RL_ s)
    (RR_ s).

Definition set_use_laser_ (s : UKF) (v : bool) : UKF :=
  mkUKF (is_initialized_ s) v (use_radar_ s) (x_ s) (P_ s) (Xsig_pred_ s)
    (Xsig_aug_ s) (time_ s) (std_a_ s) (std_yawdd_ s) (std_laspx_ s)
    (std_laspy_ s) (std_radr_ s) (std_radphi_ s) (std_radrd_ s) (n_x_ s)
    (n_aug_ s) (n_z_ s) (lambda_ s) (weights_ s) (Zsig_ s) (H_ s) (RL_ s)
    (RR_ s).

Definition set_use_radar_ (s : UKF) (v : bool) : UKF :=
  mkUKF (is_initialized_ s) (use_laser_ s) v (x_ s) (P_ s) (Xsig_pred_ s)
    (Xsig_aug_ s) (time_ s) (std_a_ s) (std_yawdd_ s) (std_laspx_ s)
    (std_laspy_ s) (std_radr_ s) (std_radphi_ s) (std_radrd_ s) (n_x_ s)
    (n_aug_ s) (n_z_ s) (lambda_ s) (weights_ s) (Zsig_ s) (H_ s) (RL_ s)
    (RR_ s).

Definition set_x_ (s : UKF) (v : VectorXd) : UKF :=
  mkUKF (is_initialized_ s) (use_laser_ s) (use_radar_ s) v (P_ s)
    (Xsig_pred_ s) (Xsig_aug_ s) (time_ s) (std_a_ s) (std_yawdd_ s)
    (std_laspx_ s) (std_laspy_ s) (std_radr_ s) (std_radphi_ s)
    (std_radrd_ s) (n_x_ s) (n_aug_ s) (n_z_ s) (lambda_ s) (weights_ s)
    (Zsig_ s) (H_ s) (RL_ s) (RR_ s).

Definition set_P_ (s : UKF) (v : MatrixXd) : UKF :=
  mkUKF (is_initialized_ s) (use_laser_ s) (use_radar_ s) (x_ s) v
    (Xsig_pred_ s) (Xsig_aug_ s) (time_ s) (std_a_ s) (std_yawdd_ s)
    (std_laspx_ s) (std_laspy_ s) (std_radr_ s) (std_radphi_ s)
    (std_radrd_ s) (n_x_ s) (n_aug_ s) (n_z_ s) (lambda_ s) (weights_ s)
    (Zsig_ s) (H_ s) (RL_ s) (RR_ s).

Definition set_Xsig_pred_ (s : UKF) (v : MatrixXd) : UKF :=
  mkUKF (is_initialized_ s) (use_laser_ s) (use_radar_ s) (x_ s) (P_ s) v
    (Xsig_aug_ s) (time_ s) (std_a_ s) (std_yawdd_ s) (std_laspx_ s)
    (std_laspy_ s) (std_radr_ s) (std_radphi_ s) (std_radrd_ s) (n_x_ s)
    (n_aug_ s) (n_z_ s) (lambda_ s) (weights_ s) (Zsig_ s) (H_ s) (RL_ s)
    (RR_ s).

Definition set_Xsig_aug_ (s : UKF) (v : MatrixXd) : UKF :=
  mkUKF (is_initialized_ s) (use_laser_ s) (use_radar_ s) (x_ s) (P_ s)
    (Xsig_pred_ s) v (time_ s) (std_a_ s) (std_yawdd_ s) (std_laspx_ s)
    (std_laspy_ s) (std_radr_ s) (std_radphi_ s) (std_radrd_ s) (n_x_ s)
    (n_aug_ s) (n_z_ s) (lambda_ s) (weights_ s) (Zsig_ s) (H_ s) (RL_ s)
    (RR_ s).

Definition set_time_ (s : UKF) (v : Z) : UKF :=
  mkUKF (is_initialized_ s) (use_laser_ s) (use_radar_ s) (x_ s) (P_ s)
    (Xsig_pred_ s) (Xsig_aug_ s) v (std_a_ s) (std_yawdd_ s) (std_laspx_ s)
    (std_laspy_ s) (std_radr_ s) (std_radphi_ s) (std_radrd_ s) (n_x_ s)
    (n_aug_ s) (n_z_ s) (lambda_ s) (weights_ s) (Zsig_ s) (H_ s) (RL_ s)
    (RR_ s).

Definition set_Zsig_ (s : UKF) (v : MatrixXd) : UKF :=
  mkUKF (is_initialized_ s) (use_laser_ s) (use_radar_ s) (x_ s) (P_ s)
    (Xsig_pred_ s) (Xsig_aug_ s) (time_ s) (std_a_ s) (std_yawdd_ s)
    (std_laspx_ s) (std_laspy_ s) (std_radr_ s) (std_radphi_ s)
    (std_radrd_ s) (n_x_ s) (n_aug_ s) (n_z_ s) (lambda_ s) (weights_ s) v
    (H_ s) (RL_ s) (RR_ s).

(** What a call leaves behind: the mutated object, or the process ended by
    [exit(status)] after [out] was written to [std::cout]. *)
Inductive outcome : Type :=
| Returned (s : UKF)
| Exited (status : Z) (out : string).

(** The comma initialiser [m << c0, c1, ...], which fills row by row. *)
Definition comma_init (m : MatrixXd) (cs : list R) : MatrixXd :=
  mkMatrix (rows m) (cols m) (fun r k => List.nth (r * cols m + k) cs 0).

(** ** Instances of the two Eigen decompositions

    The properties below hold for every function in the place of
    [llt().matrixL()] and for every [inverse()] that keeps the dimensions.
    The column-by-column Cholesky recurrence and the cofactor inverse of
    matrices up to 3x3 are the instances used when the filter is run on
    concrete objects. *)

Definition cholesky (A : MatrixXd) : MatrixXd :=
  for_loop (rows A)
    (fun j (L : MatrixXd) =>
       let d := sqrt (A j j - sum_upto j (fun k => L j k * L j k)) in
       let L := mset L j j d in
       for_loop (rows A - (j + 1))
         (fun t (L : MatrixXd) =>
            let i := (j + 1 + t)%nat in
            mset L i j ((A i j - sum_upto j (fun k => L i k * L j k)) / d))
         L)
    (mfill A 0).

Definition cofactor3 (m : MatrixXd) (r k : nat) : R :=
  m ((k + 1) mod 3)%nat ((r + 1) mod 3)%nat * m ((k + 2) mod 3)%nat ((r + 2) mod 3)%nat
  - m ((k + 1) mod 3)%nat ((r + 2) mod 3)%nat * m ((k + 2) mod 3)%nat ((r + 1) mod 3)%nat.

Definition cofactor_inverse (m : MatrixXd) : MatrixXd :=
  mkMatrix (rows m) (cols m)
    (match rows m with
     | 1%nat => fun _ _ => / m 0%nat 0%nat
     | 2%nat =>
         fun r k =>
           (if Nat.eqb r k then m (1 - r)%nat (1 - k)%nat else - m r k)
           / (m 0%nat 0%nat * m 1%nat 1%nat - m 0%nat 1%nat * m 1%nat 0%nat)
     | 3%nat =>
         fun r k =>
           cofactor3 m r k
           / sum_upto 3 (fun j => m 0%nat j * cofactor3 m j 0%nat)
     | _ => mcoeff m
     end).

(** ** The range-rate quotient in binary64

    The reals have no underflow, no infinity and no NaN.  What line 333,
    [Zsig_(2,i) = (p_x*v1 + p_y*v2) / sqrt(p_x*p_x + p_y*p_y)], computes
    on IEEE 754 doubles is given here on Rocq's primitive floats, with
    [v1] and [v2] the doubles that [cos(yaw)*v] and [sin(yaw)*v] have
    given. *)

Module Binary64.
Import PrimFloat.

Definition range (p_x p_y : float) : float := sqrt (p_x * p_x + p_y * p_y).




(** The constant [M_PI], and the quotient of two integers that doubles
    hold exactly, the divisor being 2^48. *)
Definition M_PI : float := 0x1.921fb54442d18p+1.
Definition M_PI_ratio : float := 884279719003555 / 281474976710656.

(** The body [d -= 2. * M_PI] of the first normalisation loop, and the
    double 1e17. *)
Definition turn_down (d : float) : float := d - 2 * M_PI.
Definition huge : float := 0x1.6345785d8ap+56.

End Binary64.

(** Unfolding of the Eigen operations down to coefficients. *)
Ltac eigen :=
  unfold normalize_at, comma_init, VectorXd_alloc, MatrixXd_alloc, vfill,
    mfill, vset, mset, head, assign_head, fill_tail, col, assign_col,
    assign_topLeftCorner, vadd, vsub, vscale, madd, msub, mscale, Identity,
    transpose, mmul, mvec, outer in *;
  cbn [vsize vcoeff rows cols mcoeff] in *.

Section Filter.

(** Eigen's Cholesky factor [m.llt().matrixL()] and [m.inverse()]. *)
Variable llt_matrixL : MatrixXd -> MatrixXd.
Variable inverse : MatrixXd -> MatrixXd.

(** The inverse of a matrix has the dimensions of the matrix. *)
Hypothesis inverse_shape :
  forall m, rows (inverse m) = rows m /\ cols (inverse m) = cols m.

(** [UKF::UKF()].  The constructor leaves [time_] unset; the model starts
    it at 0, and it is read only after [ProcessMeasurement] has stored the
    first timestamp. *)
Definition UKF_new : UKF :=
  let is_initialized := false in
  let use_laser := true in
  let use_radar := true in
  let x := VectorXd_alloc 5 in
  let P := mscale (Identity 5 5) 0.5 in
  let Xsig_pred := mfill (MatrixXd_alloc 5 15) 0.0 in
  let Xsig_aug := mfill (MatrixXd_alloc 7 15) 0.0 in
  let std_a := 3.0 in
  let std_yawdd := 1.0 in
  let std_laspx := 0.15 in
  let std_laspy := 0.15 in
  let std_radr := 0.3 in
  let std_radphi := 0.03 in
  let std_radrd := 0.3 in
  let n_x := 5%nat in
  let n_aug := 7%nat in
  let n_z := 3%nat in
  let lambda := 3.0 - INR n_x in
  let weights := VectorXd_alloc (2 * n_aug + 1) in
  let weight_0 := lambda / (lambda + INR n_aug) in
  let weight := 0.5 / (lambda + INR n_aug) in
  let weights := vset weights 0 weight_0 in
  let weights :=
    for_loop (2 * n_aug + 1 - 1) (fun k w => vset w (k + 1) weight) weights in
  let Zsig := mfill (MatrixXd_alloc n_z (2 * n_aug + 1)) 0.0 in
  let H := comma_init (MatrixXd_alloc 2 n_x)
             (1 :: 0 :: 0 :: 0 :: 0 :: 0 :: 1 :: 0 :: 0 :: 0 :: nil) in
  let RL := comma_init (MatrixXd_alloc 2 2)
              (std_laspx * std_laspx :: 0 :: 0 :: std_laspy * std_laspy :: nil) in
  let RR := comma_init (MatrixXd_alloc n_z n_z)
              (std_radr * std_radr :: 0 :: 0 ::
               0 :: std_radphi * std_radphi :: 0 ::
               0 :: 0 :: std_radrd * std_radrd :: nil) in
  mkUKF is_initialized use_laser use_radar x P Xsig_pred Xsig_aug 0%Z
    std_a std_yawdd std_laspx std_laspy std_radr std_radphi std_radrd
    n_x n_aug n_z lambda weights Zsig H RL RR.

(** ** [UKF::AugmentedSigmaPoints] *)

(** The local [x_aug]: the mean with the two noise means appended. *)
Definition x_aug (s : UKF) : VectorXd :=
  let x_aug := VectorXd_alloc 7 in
  let x_aug := assign_head x_aug 5 (x_ s) in
  let x_aug := vset x_aug 5 0 in
  vset x_aug 6 0.

(** The local [P_aug]: the augmented covariance. *)
Definition P_aug (s : UKF) : MatrixXd :=
  let P_aug := MatrixXd_alloc 7 7 in
  let P_aug := mfill P_aug 0.0 in
  let P_aug := assign_topLeftCorner P_aug 5 5 (P_ s) in
  let P_aug := mset P_aug 5 5 (std_a_ s * std_a_ s) in
  mset P_aug 6 6 (std_yawdd_ s * std_yawdd_ s).

(** The loop over the columns of [L] that fills [Xsig_aug_]. *)
Definition sigma_columns (s : UKF) (x_aug : VectorXd) (L : MatrixXd)
  (Xsig_aug : MatrixXd) : MatrixXd :=
  for_loop (n_aug_ s)
    (fun i X =>
       let X :=
         assign_col X (i + 1)
           (vadd x_aug (vscale (sqrt (lambda_ s + INR (n_aug_ s))) (col L i))) in
       assign_col X (i + 1 + n_aug_ s)
         (vsub x_aug (vscale (sqrt (lambda_ s + INR (n_aug_ s))) (col L i))))
    Xsig_aug.

Definition AugmentedSigmaPoints (s : UKF) : UKF :=
  let x_aug := x_aug s in
  let P_aug := P_aug s in
  let L := llt_matrixL P_aug in
  let Xsig_aug := assign_col (Xsig_aug_ s) 0 x_aug in
  set_Xsig_aug_ s (sigma_columns s x_aug L Xsig_aug).

(** ** [UKF::SigmaPointPrediction] *)

(** The body of the loop: column [i] of [Xsig_aug_] pushed through the
    CTRV model and written to column [i] of [Xsig_pred_]. *)
Definition predict_column (s : UKF) (delta_t : R) (i : nat)
  (Xsig_pred : MatrixXd) : MatrixXd :=
  let p_x := Xsig_aug_ s 0%nat i in
  let p_y := Xsig_aug_ s 1%nat i in
  let v := Xsig_aug_ s 2%nat i in
  let yaw := Xsig_aug_ s 3%nat i in
  let yawd := Xsig_aug_ s 4%nat i in
  let nu_a := Xsig_aug_ s 5%nat i in
  let nu_yawdd := Xsig_aug_ s 6%nat i in
  let '(px_p, py_p) :=
    if Rgt_dec (fabs yawd) 0.001 then
      (p_x + v / yawd * (sin (yaw + yawd * delta_t) - sin yaw),
       p_y + v / yawd * (cos yaw - cos (yaw + yawd * delta_t)))
    else
      (p_x + v * delta_t * cos yaw,
       p_y + v * delta_t * sin yaw) in
  let v_p := v in
  let yaw_p := yaw + yawd * delta_t in
  let yawd_p := yawd in
  let px_p := px_p + 0.5 * nu_a * delta_t * delta_t * cos yaw in
  let py_p := py_p + 0.5 * nu_a * delta_t * delta_t * sin yaw in
  let v_p := v_p + nu_a * delta_t in
  let yaw_p := yaw_p + 0.5 * nu_yawdd * delta_t * delta_t in
  let yawd_p := yawd_p + nu_yawdd * delta_t in
  let Xsig_pred := mset Xsig_pred 0 i px_p in
  let Xsig_pred := mset Xsig_pred 1 i py_p in
  let Xsig_pred := mset Xsig_pred 2 i v_p in
  let Xsig_pred := mset Xsig_pred 3 i yaw_p in
  mset Xsig_pred 4 i yawd_p.

Definition SigmaPointPrediction (s : UKF) (delta_t : R) : UKF :=
  set_Xsig_pred_ s
    (for_loop (2 * n_aug_ s + 1) (predict_column s delta_t) (Xsig_pred_ s)).

(** ** [UKF::PredictMeanAndCovariance] *)

(** The first loop: the weighted sum of the predicted sigma points. *)
Definition weighted_mean (s : UKF) (Xsig : MatrixXd) (acc : VectorXd)
  : VectorXd :=
  for_loop (2 * n_aug_ s + 1)
    (fun i x => vadd x (vscale (weights_ s i) (col Xsig i))) acc.

(** [x_diff] of iteration [i] of the second loop, after its normalisation. *)
Definition x_diff (Xsig_pred : MatrixXd) (x : VectorXd) (i : nat) : VectorXd :=
  let x_diff := vsub (col Xsig_pred i) x in
  normalize_at 3 x_diff.

Definition PredictMeanAndCovariance (s : UKF) : UKF :=
  let s := set_x_ s (vfill (x_ s) 0.0) in
  let s := set_x_ s (weighted_mean s (Xsig_pred_ s) (x_ s)) in
  let s := set_P_ s (mfill (P_ s) 0.0) in
  set_P_ s
    (for_loop (2 * n_aug_ s + 1)
       (fun i P =>
          let x_diff := x_diff (Xsig_pred_ s) (x_ s) i in
          madd P (outer (vscale (weights_ s i) x_diff) x_diff))
       (P_ s)).

(** ** [UKF::Prediction] *)

Definition Prediction (s : UKF) (delta_t : R) : UKF :=
  let s := AugmentedSigmaPoints s in
  let s := SigmaPointPrediction s delta_t in
  PredictMeanAndCovariance s.

(** ** [UKF::PredictRadarMeasurement] *)

(** The divisor of the range-rate quotient for a point at [(p_x, p_y)],
    over the reals: no square underflows.  [Binary64.range] is the same
    expression on doubles. *)
Definition range (p_x p_y : R) : R := sqrt (p_x * p_x + p_y * p_y).

(** The body of the first loop: column [i] of [Xsig_pred_] mapped to
    range, bearing and range rate in column [i] of [Zsig_].  The quotient
    is the division of the reals, and stands for the program's only where
    the divisor is not zero: at a zero divisor the program stores a NaN or
    an infinity ([Binary64.range_rate]). *)
Definition measure_column (s : UKF) (i : nat) (Zsig : MatrixXd) : MatrixXd :=
  let p_x := Xsig_pred_ s 0%nat i in
  let p_y := Xsig_pred_ s 1%nat i in
  let v := Xsig_pred_ s 2%nat i in
  let yaw := Xsig_pred_ s 3%nat i in
  let v1 := cos yaw * v in
  let v2 := sin yaw * v in
  let Zsig := mset Zsig 0 i (sqrt (p_x * p_x + p_y * p_y)) in
  let Zsig := mset Zsig 1 i (atan2 p_y p_x) in
  mset Zsig 2 i ((p_x * v1 + p_y * v2) / range p_x p_y).

(** [z_diff] of iteration [i], after its normalisation. *)
Definition z_diff (Zsig : MatrixXd) (z_pred : VectorXd) (i : nat) : VectorXd :=
  let z_diff := vsub (col Zsig i) z_pred in
  normalize_at 1 z_diff.

(** The by-reference arguments [z_pred] and [S] are returned next to the
    object, whose [Zsig_] the call overwrites. *)
Definition PredictRadarMeasurement (s : UKF) (z_pred : VectorXd) (S : MatrixXd)
  : UKF * VectorXd * MatrixXd :=
  let s := set_Zsig_ s (for_loop (2 * n_aug_ s + 1) (measure_column s) (Zsig_ s)) in
  let z_pred := vfill z_pred 0.0 in
  let z_pred := weighted_mean s (Zsig_ s) z_pred in
  let S := mfill S 0.0 in
  let S :=
    for_loop (2 * n_aug_ s + 1)
      (fun i S =>
         let z_diff := z_diff (Zsig_ s) z_pred i in
         madd S (outer (vscale (weights_ s i) z_diff) z_diff))
      S in
  let S := madd S (RR_ s) in
  (s, z_pred, S).

(** ** [UKF::UpdateRadar] *)

(** The loop that accumulates the cross correlation [Tc]. *)
Definition cross_correlation (s : UKF) (z_pred : VectorXd) (Tc : MatrixXd)
  : MatrixXd :=
  for_loop (2 * n_aug_ s + 1)
    (fun i Tc =>
       let z_diff := z_diff (Zsig_ s) z_pred i in
       let x_diff := x_diff (Xsig_pred_ s) (x_ s) i in
       madd Tc (outer (vscale (weights_ s i) x_diff) z_diff))
    Tc.

(** The final residual [z - z_pred] with its bearing normalised. *)
Definition radar_residual (z z_pred : VectorXd) : VectorXd :=
  let z_diff := vsub z z_pred in
  normalize_at 1 z_diff.

Definition UpdateRadar (s : UKF) (meas_package : MeasurementPackage) : UKF :=
  let z_pred := VectorXd_alloc (n_z_ s) in
  let S := MatrixXd_alloc (n_z_ s) (n_z_ s) in
  let out := PredictRadarMeasurement s z_pred S in
  let s := fst (fst out) in
  let z_pred := snd (fst out) in
  let S := snd out in
  let z := raw_measurements_ meas_package in
  let Tc := MatrixXd_alloc (n_x_ s) (n_z_ s) in
  let Tc := mfill Tc 0.0 in
  let Tc := cross_correlation s z_pred Tc in
  let K := mmul Tc (inverse S) in
  let z_diff := radar_residual z z_pred in
  let s := set_x_ s (vadd (x_ s) (mvec K z_diff)) in
  set_P_ s (msub (P_ s) (mmul (mmul K S) (transpose K))).

(** ** [UKF::UpdateLidar] *)

Definition UpdateLidar (s : UKF) (meas_package : MeasurementPackage) : UKF :=
  let z := head (raw_measurements_ meas_package) 2 in
  let z_pred := mvec (H_ s) (x_ s) in
  let y := vsub z z_pred in
  let Ht := transpose (H_ s) in
  let S := madd (mmul (mmul (H_ s) (P_ s)) Ht) (RL_ s) in
  let Si := inverse S in
  let PHt := mmul (P_ s) Ht in
  let K := mmul PHt Si in
  let s := set_x_ s (vadd (x_ s) (mvec K y)) in
  let I := Identity 5 5 in
  set_P_ s (mmul (msub I (mmul K (H_ s))) (P_ s)).

(** ** [UKF::ProcessMeasurement]

    In the first [switch] the [LASER] case has no [break] and falls into
    [default: return;]. *)

Definition ProcessMeasurement (s : UKF) (meas_package : MeasurementPackage)
  : outcome :=
  if negb (is_initialized_ s) then
    match sensor_type_ meas_package with
    | LASER =>
        let s := set_x_ s (assign_head (x_ s) 2 (raw_measurements_ meas_package)) in
        let s := set_x_ s (fill_tail (x_ s) 3 0.0) in
        let s := set_time_ s (timestamp_ meas_package) in
        let s := set_is_initialized_ s true in
        Returned s
    | _ => Returned s
    end
  else
    let delta_t := (timestamp_ meas_package - time_ s)%Z in
    let s := set_time_ s (timestamp_ meas_package) in
    let s := Prediction s (IZR delta_t / 1.0e6) in
    match sensor_type_ meas_package with
    | LASER => Returned (if use_laser_ s then UpdateLidar s meas_package else s)
    | RADAR => Returned (if use_radar_ s then UpdateRadar s meas_package else s)
    | UNKNOWN => Exited 1 "Error: Unknown measurement source."
    end.

(** ** The configuration the constructor establishes

    The constants of the object and the dimensions of its buffers: what
    [UKF::UKF()] sets and no method changes. *)

Record configured (s : UKF) : Prop := mkConfigured {
  cfg_n_x : n_x_ s = 5%nat;
  cfg_n_aug : n_aug_ s = 7%nat;
  cfg_n_z : n_z_ s = 3%nat;
  cfg_lambda : lambda_ s = 3.0 - INR 5;
  cfg_weights : weights_ s = weights_ UKF_new;
  cfg_std_a : std_a_ s = 3.0;
  cfg_std_yawdd : std_yawdd_ s = 1.0;
  cfg_H : H_ s = H_ UKF_new;
  cfg_RL : RL_ s = RL_ UKF_new;
  cfg_RR : RR_ s = RR_ UKF_new;
  cfg_x_size : vsize (x_ s) = 5%nat;
  cfg_P_rows : rows (P_ s) = 5%nat;
  cfg_P_cols : cols (P_ s) = 5%nat
}.

(** ** The sigma-point offsets

    What [AugmentedSigmaPoints] adds to the augmented mean in column [i]:
    nothing in column 0, plus the scaled column [i - 1] of [L] in columns
    1 to [n_aug_], minus the scaled column [i - 1 - n_aug_] in the
    others. *)
Definition sigma_offset (s : UKF) (i r : nat) : R :=
  let L := llt_matrixL (P_aug s) in
  let c := sqrt (lambda_ s + INR (n_aug_ s)) in
  match i with
  | O => 0
  | S j => if Nat.ltb j (n_aug_ s) then c * L r j
           else - (c * L r (j - n_aug_ s)%nat)
  end.

(** ** The locals of the lidar update

    [S] and [K] as [UpdateLidar] computes them from the object. *)
Definition lidar_S (s : UKF) : MatrixXd :=
  madd (mmul (mmul (H_ s) (P_ s)) (transpose (H_ s))) (RL_ s).

Definition lidar_K (s : UKF) : MatrixXd :=
  mmul (mmul (P_ s) (transpose (H_ s))) (inverse (lidar_S s)).

(** ** Concrete objects and samples *)

(** An object whose predicted sigma points all sit at (1, 0), heading 0,
    at rest: every bearing is [atan2 0 1 = 0]. *)
Definition ukf_due_east : UKF :=
  set_is_initialized_
    (set_Xsig_pred_ UKF_new
       (mkMatrix 5 15 (fun r _ => if Nat.eqb r 0 then 1 else 0)))
    true.

(** A radar sample at range 1 with bearing [-M_PI]. *)
Definition radar_due_west : MeasurementPackage :=
  mkMeasurementPackage RADAR
    (mkVector 3 (fun k => match k with 0%nat => 1 | 1%nat => - M_PI | _ => 0 end))
    0.

(** An initialised object with the radar switched off. *)
Definition ukf_radar_off : UKF := set_use_radar_ ukf_due_east false.

(** A lidar sample at (1, 1) and a sample with an unrecognised tag. *)
Definition lidar_sample : MeasurementPackage :=
  mkMeasurementPackage LASER (mkVector 2 (fun _ => 1)) 0.
Definition unknown_sample : MeasurementPackage :=
  mkMeasurementPackage UNKNOWN (VectorXd_alloc 2) 0.

(** The object [UKF_new] after its first sample, [lidar_sample]. *)
Definition ukf_started : UKF :=
  let s := UKF_new in
  let s := set_x_ s (assign_head (x_ s) 2 (raw_measurements_ lidar_sample)) in
  let s := set_x_ s (fill_tail (x_ s) 3 0.0) in
  let s := set_time_ s (timestamp_ lidar_sample) in
  set_is_initialized_ s true.

(** An object without uncertainty and an object whose sigma points all
    turn at 1 rad/s with speed 1. *)
Definition ukf_certain : UKF := set_P_ UKF_new (mfill (P_ UKF_new) 0).

Definition ukf_turning : UKF :=
  set_Xsig_aug_ UKF_new
    (mkMatrix 7 15
       (fun r _ => match r with 2%nat => 1 | 4%nat => 1 | _ => 0 end)).

(** The started object with predicted sigma points spread along the line
    y = 1: column [i] is at (1 + i, 1) with speed 1 and heading [i]
    radians, and the mean and covariance are those that
    [PredictMeanAndCovariance] computes from these columns. *)
Definition ukf_spread : UKF :=
  PredictMeanAndCovariance
    (set_Xsig_pred_ ukf_started
       (mkMatrix 5 15
          (fun r i =>
             match r with
             | 0%nat => 1 + INR i
             | 1%nat => 1
             | 2%nat => 1
             | 3%nat => INR i
             | _ => 0
             end))).

(** The Cholesky factor of a diagonal matrix with a non-negative
    diagonal. *)
Definition sqrt_diagonal (m : MatrixXd) : MatrixXd :=
  mkMatrix (rows m) (cols m)
    (fun r k => if Nat.eqb r k then sqrt (m r r) else 0).

(** A symmetric positive-definite 2x2 matrix. *)
Definition spd_2x2 : MatrixXd :=
  mkMatrix 2 2
    (fun r k =>
       match r, k with
       | 0%nat, 0%nat => 4
       | 1%nat, 1%nat => 5
       | _, _ => 2
       end).

(** * Properties *)

(** ** Angle normalisation *)

(** The double [M_PI] is positive and lies strictly below pi: the partial
    sum of index 17 of the series 2 atan(1/3) + atan(1/7) = pi/4 already
    exceeds it. *)
Lemma M_PI_pos : 0 < M_PI.
Proof. unfold M_PI. lra. Qed.

Lemma M_PI_lt_PI : M_PI < PI.
Proof.
  destruct (PI_2_3_7_ineq 8) as [Hlow _].
  apply Rlt_le_trans
    with (4 * sum_f_R0 (tg_alt PI_2_3_7_tg) (S (2 * 8))); [| lra].
  clear Hlow. unfold M_PI.
  cbv [Nat.mul Nat.add sum_f_R0 tg_alt PI_2_3_7_tg Ratan_seq].
  rewrite !INR_IZR_INZ. cbn [Z.of_nat Pos.of_succ_nat Pos.succ].
  lra.
Qed.

(** The real [M_PI] is the value of the double: the double is the
    quotient of the two integers, a division by a power of two, which is
    exact. *)
Example Binary64_M_PI_value : Binary64.M_PI = Binary64.M_PI_ratio.
Proof. vm_compute. reflexivity. Qed.

(** On doubles, at 1e17 the loop test [d > M_PI] holds and subtracting a
    turn changes nothing: the first loop makes no progress there. *)
Example Binary64_turn_absorbed :
  PrimFloat.ltb Binary64.M_PI Binary64.huge = true /\
  Binary64.turn_down Binary64.huge = Binary64.huge.
Proof. split; vm_compute; reflexivity. Qed.

(** The two functions satisfy the equations of the loops they model. *)
Lemma while_above_loop (d : R) :
  while_above d = if Rgt_dec d M_PI then while_above (d - 2 * M_PI) else d.
Proof.
  rewrite while_above_equation_1 at 1. unfold while_above_unfold_clause_1.
  destruct (Rgt_dec d M_PI); reflexivity.
Qed.

Lemma while_below_loop (d : R) :
  while_below d = if Rlt_dec d (- M_PI) then while_below (d + 2 * M_PI) else d.
Proof.
  rewrite while_below_equation_1 at 1. unfold while_below_unfold_clause_1.
  destruct (Rlt_dec d (- M_PI)); reflexivity.
Qed.

Example normalize_three_M_PI : normalize_angle (3 * M_PI) = M_PI.
Proof.
  pose proof M_PI_pos as Hpi. unfold normalize_angle.
  rewrite while_above_loop.
  destruct (Rgt_dec (3 * M_PI) M_PI) as [_ | H]; [| lra].
  replace (3 * M_PI - 2 * M_PI) with M_PI by ring.
  rewrite while_above_loop.
  destruct (Rgt_dec M_PI M_PI) as [H | _]; [lra |].
  rewrite while_below_loop.
  destruct (Rlt_dec M_PI (- M_PI)) as [H | _]; [lra | reflexivity].
Qed.

Example normalize_minus_three_half_M_PI :
  normalize_angle (- (3 * M_PI / 2)) = M_PI / 2.
Proof.
  pose proof M_PI_pos as Hpi. unfold normalize_angle.
  rewrite while_above_loop.
  destruct (Rgt_dec (- (3 * M_PI / 2)) M_PI) as [H | _]; [lra |].
  rewrite while_below_loop.
  destruct (Rlt_dec (- (3 * M_PI / 2)) (- M_PI)) as [_ | H]; [| lra].
  replace (- (3 * M_PI / 2) + 2 * M_PI) with (M_PI / 2) by field.
  rewrite while_below_loop.
  destruct (Rlt_dec (M_PI / 2) (- M_PI)) as [H | _]; [lra | reflexivity].
Qed.

Lemma while_above_spec (d : R) :
  while_above d <= M_PI /\
  (d <= M_PI -> while_above d = d) /\
  (M_PI < d -> - M_PI < while_above d) /\
  exists k : Z, while_above d = d + 2 * IZR k * M_PI.
Proof.
  funelim (while_above d).
  - match goal with
    | IH : while_above _ <= _ /\ _ |- _ => destruct IH as (Hle & Hid & Hgt & k & Hk)
    end.
    repeat split.
    + exact Hle.
    + intros; lra.
    + intros _. destruct (Rle_dec (d - 2 * M_PI) M_PI) as [Hc | Hc].
      * rewrite (Hid Hc). lra.
      * apply Hgt. lra.
    + exists (k - 1)%Z. rewrite Hk, minus_IZR. ring.
  - repeat split.
    + lra.
    + intros; lra.
    + exists 0%Z. ring.
Qed.

Lemma while_below_spec (d : R) :
  - M_PI <= while_below d /\
  (- M_PI <= d -> while_below d = d) /\
  (d < - M_PI -> while_below d < M_PI) /\
  exists k : Z, while_below d = d + 2 * IZR k * M_PI.
Proof.
  funelim (while_below d).
  - match goal with
    | IH : _ <= while_below _ /\ _ |- _ => destruct IH as (Hle & Hid & Hlt & k & Hk)
    end.
    repeat split.
    + exact Hle.
    + intros; lra.
    + intros _. destruct (Rle_dec (- M_PI) (d + 2 * M_PI)) as [Hc | Hc].
      * rewrite (Hid Hc). lra.
      * apply Hlt. lra.
    + exists (k + 1)%Z. rewrite Hk, plus_IZR. ring.
  - repeat split.
    + lra.
    + intros; lra.
    + exists 0%Z. ring.
Qed.

(** The two loops leave a value between [-M_PI] and [M_PI] that differs
    from the input by a whole number of steps of [2 * M_PI]. *)
Lemma normalize_angle_range (d : R) :
  - M_PI <= normalize_angle d <= M_PI.
Proof.
  unfold normalize_angle.
  destruct (while_above_spec d) as (Hle & _).
  destruct (while_below_spec (while_above d)) as (Hge & Hid & Hlt & _).
  split; [exact Hge |].
  destruct (Rle_dec (- M_PI) (while_above d)) as [Hc | Hc].
  - rewrite (Hid Hc). exact Hle.
  - left. apply Hlt. lra.
Qed.

Lemma normalize_angle_turns (d : R) :
  exists k : Z, normalize_angle d = d + 2 * IZR k * M_PI.
Proof.
  unfold normalize_angle.
  destruct (while_above_spec d) as (_ & _ & _ & k1 & H1).
  destruct (while_below_spec (while_above d)) as (_ & _ & _ & k2 & H2).
  exists (k1 + k2)%Z. rewrite H2, H1, plus_IZR. ring.
Qed.

Lemma normalize_angle_id (d : R) :
  - M_PI <= d <= M_PI -> normalize_angle d = d.
Proof.
  intros [Hlo Hhi]. unfold normalize_angle.
  destruct (while_above_spec d) as (_ & Hid & _).
  rewrite (Hid Hhi).
  destruct (while_below_spec d) as (_ & Hid' & _).
  exact (Hid' Hlo).
Qed.

(** Every normalised angle lies strictly inside (-pi, pi). *)
Lemma normalize_angle_inside (d : R) :
  - PI < normalize_angle d < PI.
Proof.
  pose proof (normalize_angle_range d). pose proof M_PI_lt_PI. lra.
Qed.

(** ** Loops over the columns of a matrix and accumulating loops *)

(** A loop whose iteration [i] rewrites column [i] only, with values that
    do not depend on the matrix it updates, leaves [f r i] in every
    column it visited and keeps the others. *)
Lemma for_loop_columns (body : nat -> MatrixXd -> MatrixXd)
  (f : nat -> nat -> R) (m : nat) :
  (forall i X r j, j <> i -> body i X r j = X r j) ->
  (forall i X r, (r < m)%nat -> body i X r i = f r i) ->
  forall n X r i, (i < n)%nat -> (r < m)%nat -> for_loop n body X r i = f r i.
Proof.
  intros Hframe Hwrite n X r i.
  induction n as [| n IH]; intros Hi Hr; [lia |].
  simpl. destruct (Nat.eq_dec i n) as [-> | Hne].
  - apply Hwrite; exact Hr.
  - rewrite Hframe by exact Hne. apply IH; [lia | exact Hr].
Qed.

Lemma for_loop_vadd (g : nat -> VectorXd) (n : nat) (acc : VectorXd) (k : nat) :
  for_loop n (fun i x => vadd x (g i)) acc k
  = acc k + sum_upto n (fun i => g i k).
Proof.
  induction n as [| n IH]; simpl; [ring |].
  rewrite IH. ring.
Qed.

Lemma for_loop_vadd_size (g : nat -> VectorXd) (n : nat) (acc : VectorXd) :
  vsize (for_loop n (fun i x => vadd x (g i)) acc) = vsize acc.
Proof. induction n as [| n IH]; simpl; [reflexivity | exact IH]. Qed.

Lemma for_loop_madd (g : nat -> MatrixXd) (n : nat) (acc : MatrixXd) (r k : nat) :
  for_loop n (fun i A => madd A (g i)) acc r k
  = acc r k + sum_upto n (fun i => g i r k).
Proof.
  induction n as [| n IH]; simpl; [ring |].
  rewrite IH. ring.
Qed.

Lemma for_loop_madd_shape (g : nat -> MatrixXd) (n : nat) (acc : MatrixXd) :
  rows (for_loop n (fun i A => madd A (g i)) acc) = rows acc /\
  cols (for_loop n (fun i A => madd A (g i)) acc) = cols acc.
Proof. induction n as [| n IH]; simpl; [split; reflexivity | exact IH]. Qed.

Lemma sum_upto_ext (n : nat) (f g : nat -> R) :
  (forall i, (i < n)%nat -> f i = g i) -> sum_upto n f = sum_upto n g.
Proof.
  induction n as [| n IH]; intros H; simpl; [reflexivity |].
  rewrite IH by (intros; apply H; lia). rewrite H by lia. reflexivity.
Qed.

Lemma weighted_mean_coeff (s : UKF) (Xsig : MatrixXd) (acc : VectorXd) (k : nat) :
  weighted_mean s Xsig acc k
  = acc k + sum_upto (2 * n_aug_ s + 1) (fun i => weights_ s i * Xsig k i).
Proof. unfold weighted_mean. rewrite for_loop_vadd. reflexivity. Qed.

(** ** The weights *)

Lemma weights_0 : weights_ UKF_new 0%nat = - 2 / 5.
Proof. cbn. lra. Qed.

Lemma weights_S (i : nat) :
  (1 <= i < 15)%nat -> weights_ UKF_new i = 1 / 10.
Proof.
  intros Hi.
  do 15 (destruct i as [| i]; [try lia; cbn; lra |]).
  lia.
Qed.

Lemma weights_sum : sum_upto 15 (weights_ UKF_new) = 1.
Proof. cbn. lra. Qed.

(** ** Sigma-point generation *)

Lemma x_aug_coeff (s : UKF) :
  vsize (x_aug s) = 7%nat /\
  (forall r, (r < 5)%nat -> x_aug s r = x_ s r) /\
  x_aug s 5%nat = 0 /\ x_aug s 6%nat = 0.
Proof.
  repeat split.
  intros r Hr.
  do 5 (destruct r as [| r]; [reflexivity |]). lia.
Qed.

Lemma P_aug_coeff (s : UKF) :
  rows (P_aug s) = 7%nat /\ cols (P_aug s) = 7%nat /\
  (forall r k, (r < 5)%nat -> (k < 5)%nat -> P_aug s r k = P_ s r k) /\
  P_aug s 5%nat 5%nat = std_a_ s * std_a_ s /\
  P_aug s 6%nat 6%nat = std_yawdd_ s * std_yawdd_ s /\
  (forall r k, (5 <= r)%nat \/ (5 <= k)%nat -> r <> k -> P_aug s r k = 0).
Proof.
  unfold P_aug. eigen. repeat split.
  - intros r k Hr Hk.
    destruct (Nat.eqb_spec r 6); [lia |].
    destruct (Nat.eqb_spec r 5); [lia |]. cbn [andb].
    destruct (Nat.ltb_spec r 5); [| lia].
    destruct (Nat.ltb_spec k 5); [| lia]. reflexivity.
  - intros r k Hrk Hne.
    destruct (Nat.eqb_spec r 6), (Nat.eqb_spec k 6); cbn [andb]; try lia;
    destruct (Nat.eqb_spec r 5), (Nat.eqb_spec k 5); cbn [andb]; try lia;
    destruct (Nat.ltb_spec r 5), (Nat.ltb_spec k 5); cbn [andb]; try lia; lra.
Qed.

(** The loop of [AugmentedSigmaPoints], for any number [n] of columns of
    [L]: iteration [i] is the only one that writes columns [i + 1] and
    [i + 1 + n], and column 0 is never written. *)
Lemma sigma_loop (n : nat) (c : R) (xa : VectorXd) (L X : MatrixXd) (k : nat) :
  (k <= n)%nat ->
  let X' :=
    for_loop k
      (fun i X =>
         let X := assign_col X (i + 1) (vadd xa (vscale c (col L i))) in
         assign_col X (i + 1 + n) (vsub xa (vscale c (col L i)))) X in
  (forall r, X' r 0%nat = X r 0%nat) /\
  (forall i r, (i < k)%nat ->
     X' r (i + 1)%nat = xa r + c * L r i /\
     X' r (i + 1 + n)%nat = xa r - c * L r i).
Proof.
  induction k as [| k IH]; intros Hk X'.
  - split; [reflexivity | intros; lia].
  - destruct (IH ltac:(lia)) as [IH0 IHi]. subst X'.
    cbn [for_loop]. cbv zeta. eigen. split.
    + intros r.
      destruct (Nat.eqb_spec 0 (k + 1 + n)); [lia |].
      destruct (Nat.eqb_spec 0 (k + 1)); [lia |]. apply IH0.
    + intros i r Hi. split.
      * destruct (Nat.eqb_spec (i + 1) (k + 1 + n)); [lia |].
        destruct (Nat.eqb_spec (i + 1) (k + 1)) as [He | Hne].
        -- replace i with k by lia. reflexivity.
        -- apply IHi. lia.
      * destruct (Nat.eqb_spec (i + 1 + n) (k + 1 + n)) as [He | Hne].
        -- replace i with k by lia. reflexivity.
        -- destruct (Nat.eqb_spec (i + 1 + n) (k + 1)); [lia |].
           apply IHi. lia.
Qed.

Lemma Xsig_aug_columns (s : UKF) :
  let X := Xsig_aug_ (AugmentedSigmaPoints s) in
  let L := llt_matrixL (P_aug s) in
  let c := sqrt (lambda_ s + INR (n_aug_ s)) in
  (forall r, X r 0%nat = x_aug s r) /\
  (forall i r, (i < n_aug_ s)%nat ->
     X r (i + 1)%nat = x_aug s r + c * L r i /\
     X r (i + 1 + n_aug_ s)%nat = x_aug s r - c * L r i).
Proof.
  intros X L c.
  destruct (sigma_loop (n_aug_ s) c (x_aug s) L
              (assign_col (Xsig_aug_ s) 0 (x_aug s)) (n_aug_ s) (le_n _))
    as [Hcol0 Hcols].
  split.
  - intros r. subst X. unfold AugmentedSigmaPoints, sigma_columns.
    cbn [Xsig_aug_ set_Xsig_aug_]. rewrite Hcol0. reflexivity.
  - intros i r Hi. exact (Hcols i r Hi).
Qed.

(** C1: sigma-point generation.  From any configured object,
    [AugmentedSigmaPoints] builds the 7-dimensional augmented mean (the
    mean followed by two zeros) and the 7x7 augmented covariance ([P_] in
    the top-left block, [std_a_]^2 = 9 and [std_yawdd_]^2 = 1 on the added
    diagonal, zero elsewhere); column 0 of [Xsig_aug_] is the augmented
    mean and, for every [i < n_aug_], column [i + 1] is the mean plus and
    column [i + 1 + n_aug_] the mean minus [sqrt (lambda_ + n_aug_)] times
    column [i] of the Cholesky factor of the augmented covariance, with
    [lambda_ = 3 - n_x_ = -2]; so the two columns are reflections of each
    other through the augmented mean. *)
Theorem AugmentedSigmaPoints_spec (s : UKF) :
  configured s ->
  let s' := AugmentedSigmaPoints s in
  let L := llt_matrixL (P_aug s) in
  let c := sqrt (lambda_ s + INR (n_aug_ s)) in
  (vsize (x_aug s) = 7%nat /\
   (forall r, (r < 5)%nat -> x_aug s r = x_ s r) /\
   x_aug s 5%nat = 0 /\ x_aug s 6%nat = 0) /\
  (rows (P_aug s) = 7%nat /\ cols (P_aug s) = 7%nat /\
   (forall r k, (r < 5)%nat -> (k < 5)%nat -> P_aug s r k = P_ s r k) /\
   P_aug s 5%nat 5%nat = 3 * 3 /\
   P_aug s 6%nat 6%nat = 1 * 1 /\
   (forall r k, (5 <= r)%nat \/ (5 <= k)%nat -> r <> k -> P_aug s r k = 0)) /\
  (n_aug_ s = 7%nat /\ lambda_ s = 3 - INR (n_x_ s) /\ lambda_ s = - 2) /\
  (forall r, Xsig_aug_ s' r 0%nat = x_aug s r) /\
  (forall i r, (i < n_aug_ s)%nat ->
     Xsig_aug_ s' r (i + 1)%nat = x_aug s r + c * L r i /\
     Xsig_aug_ s' r (i + 1 + n_aug_ s)%nat = x_aug s r - c * L r i) /\
  (forall i r, (i < n_aug_ s)%nat ->
     Xsig_aug_ s' r (i + 1)%nat - x_aug s r
     = - (Xsig_aug_ s' r (i + 1 + n_aug_ s)%nat - x_aug s r)).
Proof.
  intros Hcfg s' L c.
  destruct (P_aug_coeff s) as (Hr & Hc & Hblock & Ha & Hy & Hzero).
  destruct (Xsig_aug_columns s) as [Hcol0 Hpoints].
  fold s' L c in Hcol0, Hpoints.
  split; [exact (x_aug_coeff s) |].
  split.
  { repeat split; try assumption.
    - rewrite Ha, (cfg_std_a s Hcfg). lra.
    - rewrite Hy, (cfg_std_yawdd s Hcfg). lra. }
  split.
  { split; [exact (cfg_n_aug s Hcfg) |].
    rewrite (cfg_lambda s Hcfg), (cfg_n_x s Hcfg). simpl. lra. }
  split; [exact Hcol0 |].
  split; [exact Hpoints |].
  intros i r Hi. destruct (Hpoints i r Hi) as [Hp Hm]. rewrite Hp, Hm. ring.
Qed.

(** [AugmentedSigmaPoints] writes [Xsig_aug_] and nothing else. *)
Lemma AugmentedSigmaPoints_frame (s : UKF) :
  set_Xsig_aug_ (AugmentedSigmaPoints s) (Xsig_aug_ s) = set_Xsig_aug_ s (Xsig_aug_ s).
Proof. reflexivity. Qed.

(** ** The CTRV propagation *)

Lemma predict_column_frame (s : UKF) (dt : R) (i : nat) (X : MatrixXd) (r j : nat) :
  j <> i -> predict_column s dt i X r j = X r j.
Proof.
  intros Hne. unfold predict_column.
  destruct (Rgt_dec _ _); eigen;
    destruct (Nat.eqb_spec j i); try contradiction;
    rewrite !andb_false_r; reflexivity.
Qed.

Lemma predict_column_write (s : UKF) (dt : R) (i : nat) (X Y : MatrixXd) (r : nat) :
  (r < 5)%nat -> predict_column s dt i X r i = predict_column s dt i Y r i.
Proof.
  intros Hr. unfold predict_column.
  destruct (Rgt_dec _ _); eigen; rewrite !Nat.eqb_refl, !andb_true_r;
    do 5 (destruct r as [| r]; [reflexivity |]); lia.
Qed.

Lemma Xsig_pred_column (s : UKF) (delta_t : R) (i r : nat) :
  (i < 2 * n_aug_ s + 1)%nat -> (r < 5)%nat ->
  Xsig_pred_ (SigmaPointPrediction s delta_t) r i
  = predict_column s delta_t i (Xsig_pred_ s) r i.
Proof.
  intros Hi Hr. unfold SigmaPointPrediction.
  cbn [Xsig_pred_ set_Xsig_pred_].
  apply (for_loop_columns (predict_column s delta_t)
           (fun r i => predict_column s delta_t i (Xsig_pred_ s) r i) 5).
  - intros; apply predict_column_frame; assumption.
  - intros; apply predict_column_write; assumption.
  - exact Hi.
  - exact Hr.
Qed.

(** C2: the CTRV propagation of one sigma point.  For every column [i] of
    [Xsig_aug_], read as (p_x, p_y, v, yaw, yawd, nu_a, nu_yawdd), and
    every [delta_t], column [i] of [Xsig_pred_] after
    [SigmaPointPrediction] holds: the curved-path position exactly when
    [fabs yawd > 0.001] and the straight-line position otherwise, each
    with the noise terms [0.5 * nu_a * delta_t^2 * cos yaw] and
    [0.5 * nu_a * delta_t^2 * sin yaw] added; the speed [v] plus
    [nu_a * delta_t]; the heading advanced by [yawd * delta_t] plus
    [0.5 * nu_yawdd * delta_t^2]; and the yaw rate [yawd] plus
    [nu_yawdd * delta_t]. *)
Theorem SigmaPointPrediction_spec (s : UKF) (delta_t : R) (i : nat) :
  (i < 2 * n_aug_ s + 1)%nat ->
  let p_x := Xsig_aug_ s 0%nat i in
  let p_y := Xsig_aug_ s 1%nat i in
  let v := Xsig_aug_ s 2%nat i in
  let yaw := Xsig_aug_ s 3%nat i in
  let yawd := Xsig_aug_ s 4%nat i in
  let nu_a := Xsig_aug_ s 5%nat i in
  let nu_yawdd := Xsig_aug_ s 6%nat i in
  let Xsig_pred := Xsig_pred_ (SigmaPointPrediction s delta_t) in
  (fabs yawd > 0.001 ->
     Xsig_pred 0%nat i
     = p_x + v / yawd * (sin (yaw + yawd * delta_t) - sin yaw)
       + 0.5 * nu_a * delta_t * delta_t * cos yaw /\
     Xsig_pred 1%nat i
     = p_y + v / yawd * (cos yaw - cos (yaw + yawd * delta_t))
       + 0.5 * nu_a * delta_t * delta_t * sin yaw) /\
  (~ fabs yawd > 0.001 ->
     Xsig_pred 0%nat i
     = p_x + v * delta_t * cos yaw + 0.5 * nu_a * delta_t * delta_t * cos yaw /\
     Xsig_pred 1%nat i
     = p_y + v * delta_t * sin yaw + 0.5 * nu_a * delta_t * delta_t * sin yaw) /\
  Xsig_pred 2%nat i = v + nu_a * delta_t /\
  Xsig_pred 3%nat i = yaw + yawd * delta_t + 0.5 * nu_yawdd * delta_t * delta_t /\
  Xsig_pred 4%nat i = yawd + nu_yawdd * delta_t.
Proof.
  intros Hi p_x p_y v yaw yawd nu_a nu_yawdd Xsig_pred.
  subst Xsig_pred. rewrite !Xsig_pred_column by (assumption || lia).
  unfold predict_column.
  fold p_x p_y v yaw yawd nu_a nu_yawdd.
  destruct (Rgt_dec (fabs yawd) 0.001) as [Hgt | Hle]; eigen;
    rewrite !Nat.eqb_refl; cbn [Nat.eqb andb];
    (split; [intros Hc | split; [intros Hc | ]]);
    try contradiction; repeat split; reflexivity.
Qed.

(** ** Prediction over no elapsed time *)

Lemma predict_column_zero (s : UKF) (i : nat) (X : MatrixXd) (r : nat) :
  (r < 5)%nat -> predict_column s 0 i X r i = Xsig_aug_ s r i.
Proof.
  intros Hr. unfold predict_column. cbv zeta.
  replace (Xsig_aug_ s 3%nat i + Xsig_aug_ s 4%nat i * 0)
    with (Xsig_aug_ s 3%nat i) by ring.
  destruct (Rgt_dec _ _); eigen; rewrite !Nat.eqb_refl, !andb_true_r;
    do 5 (destruct r as [| r]; [cbn [Nat.eqb]; unfold Rdiv; ring |]); lia.
Qed.

Lemma PredictMeanAndCovariance_x (s : UKF) (r : nat) :
  x_ (PredictMeanAndCovariance s) r
  = sum_upto (2 * n_aug_ s + 1) (fun i => weights_ s i * Xsig_pred_ s r i).
Proof.
  unfold PredictMeanAndCovariance.
  cbn [x_ set_x_ set_P_ Xsig_pred_ n_aug_ weights_].
  rewrite weighted_mean_coeff.
  cbn [x_ set_x_ set_P_ Xsig_pred_ n_aug_ weights_]. eigen. lra.
Qed.

(** C9: prediction over [delta_t = 0].  From any configured object (so
    whatever factor the Cholesky decomposition returns, in particular for
    a positive-definite augmented covariance), every sigma point
    propagates to its own first five components, the weights sum to 1,
    and the mean after [Prediction] equals the mean before it. *)
Theorem Prediction_zero_mean (s : UKF) :
  configured s ->
  let s1 := AugmentedSigmaPoints s in
  let s2 := SigmaPointPrediction s1 0 in
  (forall i r, (i < 2 * n_aug_ s + 1)%nat -> (r < 5)%nat ->
     Xsig_pred_ s2 r i = Xsig_aug_ s1 r i) /\
  sum_upto (2 * n_aug_ s + 1) (weights_ s) = 1 /\
  (forall r, (r < 5)%nat -> x_ (Prediction s 0) r = x_ s r).
Proof.
  intros Hcfg s1 s2.
  assert (Hn : n_aug_ s = 7%nat) by exact (cfg_n_aug s Hcfg).
  assert (Hpoint : forall i r, (i < 2 * n_aug_ s + 1)%nat -> (r < 5)%nat ->
            Xsig_pred_ s2 r i = Xsig_aug_ s1 r i).
  { intros i r Hi Hr. subst s2. rewrite Xsig_pred_column by assumption.
    apply predict_column_zero; exact Hr. }
  split; [exact Hpoint |].
  split.
  { rewrite Hn, (cfg_weights s Hcfg). exact weights_sum. }
  intros r Hr. unfold Prediction. fold s1. fold s2.
  rewrite PredictMeanAndCovariance_x.
  replace (n_aug_ s2) with (n_aug_ s) by reflexivity.
  replace (weights_ s2) with (weights_ s) by reflexivity.
  rewrite (sum_upto_ext _ _ (fun i => weights_ s i * Xsig_aug_ s1 r i))
    by (intros i Hi; rewrite Hpoint by assumption; reflexivity).
  destruct (Xsig_aug_columns s) as [Hcol0 Hcols]. fold s1 in Hcol0, Hcols.
  destruct (x_aug_coeff s) as (_ & Hx & _).
  rewrite Hn in *. rewrite (cfg_weights s Hcfg). cbn [Nat.mul Nat.add sum_upto].
  rewrite weights_0, !weights_S by lia.
  rewrite Hcol0.
  destruct (Hcols 0%nat r ltac:(lia)) as [Hp0 Hm0].
  destruct (Hcols 1%nat r ltac:(lia)) as [Hp1 Hm1].
  destruct (Hcols 2%nat r ltac:(lia)) as [Hp2 Hm2].
  destruct (Hcols 3%nat r ltac:(lia)) as [Hp3 Hm3].
  destruct (Hcols 4%nat r ltac:(lia)) as [Hp4 Hm4].
  destruct (Hcols 5%nat r ltac:(lia)) as [Hp5 Hm5].
  destruct (Hcols 6%nat r ltac:(lia)) as [Hp6 Hm6].
  cbn [Nat.add] in *.
  rewrite Hp0, Hm0, Hp1, Hm1, Hp2, Hm2, Hp3, Hm3, Hp4, Hm4, Hp5, Hm5, Hp6, Hm6.
  rewrite (Hx r Hr). field.
Qed.

(** ** Recombination into covariances *)

Lemma PredictMeanAndCovariance_P (s : UKF) (r k : nat) :
  let x := x_ (PredictMeanAndCovariance s) in
  P_ (PredictMeanAndCovariance s) r k
  = sum_upto (2 * n_aug_ s + 1)
      (fun i => weights_ s i * x_diff (Xsig_pred_ s) x i r
                * x_diff (Xsig_pred_ s) x i k).
Proof.
  unfold PredictMeanAndCovariance.
  cbn [x_ P_ set_x_ set_P_ Xsig_pred_ n_aug_ weights_].
  rewrite for_loop_madd. eigen. lra.
Qed.

Lemma measure_column_frame (s : UKF) (i : nat) (Z : MatrixXd) (r j : nat) :
  j <> i -> measure_column s i Z r j = Z r j.
Proof.
  intros Hne. unfold measure_column. eigen.
  destruct (Nat.eqb_spec j i); try contradiction.
  rewrite !andb_false_r. reflexivity.
Qed.

Lemma measure_column_write (s : UKF) (i : nat) (Z Y : MatrixXd) (r : nat) :
  (r < 3)%nat -> measure_column s i Z r i = measure_column s i Y r i.
Proof.
  intros Hr. unfold measure_column. eigen.
  rewrite !Nat.eqb_refl, !andb_true_r.
  do 3 (destruct r as [| r]; [reflexivity |]); lia.
Qed.

Lemma Zsig_column (s : UKF) (z_pred : VectorXd) (S : MatrixXd) (i r : nat) :
  (i < 2 * n_aug_ s + 1)%nat -> (r < 3)%nat ->
  Zsig_ (fst (fst (PredictRadarMeasurement s z_pred S))) r i
  = measure_column s i (Zsig_ s) r i.
Proof.
  intros Hi Hr. unfold PredictRadarMeasurement.
  cbn [fst snd Zsig_ set_Zsig_].
  apply (for_loop_columns (measure_column s)
           (fun r i => measure_column s i (Zsig_ s) r i) 3).
  - intros; apply measure_column_frame; assumption.
  - intros; apply measure_column_write; assumption.
  - exact Hi.
  - exact Hr.
Qed.

Lemma PredictRadarMeasurement_z_pred (s : UKF) (z0 : VectorXd) (S0 : MatrixXd)
  (k : nat) :
  let out := PredictRadarMeasurement s z0 S0 in
  snd (fst out) k
  = sum_upto (2 * n_aug_ s + 1)
      (fun i => weights_ s i * Zsig_ (fst (fst out)) k i).
Proof.
  unfold PredictRadarMeasurement. cbn [fst snd].
  rewrite weighted_mean_coeff.
  cbn [Zsig_ set_Zsig_ n_aug_ weights_]. eigen. lra.
Qed.

Lemma PredictRadarMeasurement_S (s : UKF) (z0 : VectorXd) (S0 : MatrixXd)
  (r k : nat) :
  let out := PredictRadarMeasurement s z0 S0 in
  let Zsig := Zsig_ (fst (fst out)) in
  let z_pred := snd (fst out) in
  snd out r k
  = sum_upto (2 * n_aug_ s + 1)
      (fun i => weights_ s i * z_diff Zsig z_pred i r * z_diff Zsig z_pred i k)
    + RR_ s r k.
Proof.
  unfold PredictRadarMeasurement. cbn [fst snd].
  cbn [Zsig_ set_Zsig_ n_aug_ weights_ RR_].
  unfold madd at 1. cbn [mcoeff].
  rewrite for_loop_madd. eigen. lra.
Qed.

Lemma PredictRadarMeasurement_shape (s : UKF) (z0 : VectorXd) (S0 : MatrixXd) :
  let out := PredictRadarMeasurement s z0 S0 in
  vsize (snd (fst out)) = vsize z0 /\
  rows (snd out) = rows S0 /\ cols (snd out) = cols S0.
Proof.
  unfold PredictRadarMeasurement. cbn [fst snd]. split.
  - unfold weighted_mean. rewrite for_loop_vadd_size. reflexivity.
  - unfold madd at 1 3. cbn [rows cols].
    match goal with
    | |- context [for_loop ?n (fun i A => madd A (@?g i)) ?acc] =>
        destruct (for_loop_madd_shape g n acc) as [Hr Hc]
    end.
    rewrite Hr, Hc. split; reflexivity.
Qed.

(** [PredictRadarMeasurement] writes [Zsig_] and nothing else. *)
Lemma PredictRadarMeasurement_frame (s : UKF) (z0 : VectorXd) (S0 : MatrixXd) :
  set_Zsig_ (fst (fst (PredictRadarMeasurement s z0 S0))) (Zsig_ s)
  = set_Zsig_ s (Zsig_ s).
Proof. reflexivity. Qed.

Lemma cross_correlation_coeff (s : UKF) (z_pred : VectorXd) (Tc : MatrixXd)
  (r k : nat) :
  cross_correlation s z_pred Tc r k
  = Tc r k
    + sum_upto (2 * n_aug_ s + 1)
        (fun i => weights_ s i * x_diff (Xsig_pred_ s) (x_ s) i r
                  * z_diff (Zsig_ s) z_pred i k).
Proof.
  unfold cross_correlation. rewrite for_loop_madd. eigen. reflexivity.
Qed.

Lemma cross_correlation_shape (s : UKF) (z_pred : VectorXd) (Tc : MatrixXd) :
  rows (cross_correlation s z_pred Tc) = rows Tc /\
  cols (cross_correlation s z_pred Tc) = cols Tc.
Proof. unfold cross_correlation. apply for_loop_madd_shape. Qed.

(** What the normalisation of one component does to a difference. *)
Lemma normalize_at_coeff (k : nat) (v : VectorXd) (j : nat) :
  normalize_at k v j = if Nat.eqb j k then normalize_angle (v k) else v j.
Proof. reflexivity. Qed.

(** C3: every heading and bearing difference, once normalised, lies in
    the interval (-pi, pi], so its magnitude never exceeds pi.  The two
    loops stop only between [-M_PI] and [M_PI], and the double [M_PI] is
    below pi; the normalised value differs from the raw difference by a
    whole number of steps of [2 * M_PI].  This covers the heading
    component of [x_diff] in the predicted covariance, the heading
    component of [x_diff] and the bearing component of [z_diff] in the
    radar cross correlation, the bearing component of [z_diff] in the
    innovation covariance and the bearing component of the radar
    measurement residual; the covariances are the weighted sums of the
    products of exactly these differences. *)
Theorem angle_differences_normalized (s : UKF) (z : VectorXd) :
  (forall Xsig_pred x i,
     - PI < x_diff Xsig_pred x i 3%nat <= PI /\
     Rabs (x_diff Xsig_pred x i 3%nat) <= PI /\
     - M_PI <= x_diff Xsig_pred x i 3%nat <= M_PI /\
     exists k : Z,
       x_diff Xsig_pred x i 3%nat
       = Xsig_pred 3%nat i - x 3%nat + 2 * IZR k * M_PI) /\
  (forall Zsig z_pred i,
     - PI < z_diff Zsig z_pred i 1%nat <= PI /\
     Rabs (z_diff Zsig z_pred i 1%nat) <= PI /\
     - M_PI <= z_diff Zsig z_pred i 1%nat <= M_PI /\
     exists k : Z,
       z_diff Zsig z_pred i 1%nat
       = Zsig 1%nat i - z_pred 1%nat + 2 * IZR k * M_PI) /\
  (forall z_pred,
     - PI < radar_residual z z_pred 1%nat <= PI /\
     Rabs (radar_residual z z_pred 1%nat) <= PI /\
     - M_PI <= radar_residual z z_pred 1%nat <= M_PI /\
     exists k : Z,
       radar_residual z z_pred 1%nat
       = z 1%nat - z_pred 1%nat + 2 * IZR k * M_PI) /\
  (forall r k,
     let x := x_ (PredictMeanAndCovariance s) in
     P_ (PredictMeanAndCovariance s) r k
     = sum_upto (2 * n_aug_ s + 1)
         (fun i => weights_ s i * x_diff (Xsig_pred_ s) x i r
                   * x_diff (Xsig_pred_ s) x i k)) /\
  (forall z0 S0 r k,
     let out := PredictRadarMeasurement s z0 S0 in
     let Zsig := Zsig_ (fst (fst out)) in
     let z_pred := snd (fst out) in
     snd out r k
     = sum_upto (2 * n_aug_ s + 1)
         (fun i => weights_ s i * z_diff Zsig z_pred i r
                   * z_diff Zsig z_pred i k)
       + RR_ s r k) /\
  (forall z_pred r k,
     cross_correlation s z_pred (mfill (MatrixXd_alloc (n_x_ s) (n_z_ s)) 0.0) r k
     = sum_upto (2 * n_aug_ s + 1)
         (fun i => weights_ s i * x_diff (Xsig_pred_ s) (x_ s) i r
                   * z_diff (Zsig_ s) z_pred i k)).
Proof.
  assert (Hnorm : forall d, - PI < normalize_angle d <= PI /\
            Rabs (normalize_angle d) <= PI /\
            - M_PI <= normalize_angle d <= M_PI /\
            exists k : Z, normalize_angle d = d + 2 * IZR k * M_PI).
  { intros d. pose proof (normalize_angle_range d) as Hr.
    pose proof (normalize_angle_inside d) as Hi.
    split; [lra |]. split; [apply Rabs_le; lra |].
    split; [exact Hr | apply normalize_angle_turns]. }
  split; [| split; [| split; [| split; [| split]]]].
  - intros X x i. unfold x_diff. rewrite normalize_at_coeff. apply Hnorm.
  - intros Z zp i. unfold z_diff. rewrite normalize_at_coeff. apply Hnorm.
  - intros zp. unfold radar_residual. rewrite normalize_at_coeff. apply Hnorm.
  - intros r k. apply PredictMeanAndCovariance_P.
  - intros z0 S0 r k. apply PredictRadarMeasurement_S.
  - intros zp r k. rewrite cross_correlation_coeff. eigen. lra.
Qed.

(** ** The radar measurement model *)

(** Over the reals the divisor of a point away from the origin is
    positive. *)
Lemma range_positive (p_x p_y : R) : (p_x, p_y) <> (0, 0) -> 0 < range p_x p_y.
Proof.
  intros Hne. unfold range. apply sqrt_lt_R0.
  destruct (Req_dec p_x 0) as [Hx | Hx].
  - destruct (Req_dec p_y 0) as [Hy | Hy].
    + subst. contradiction Hne. reflexivity.
    + nra.
  - nra.
Qed.






(** ** The radar update *)

Lemma UpdateRadar_x (s : UKF) (meas_package : MeasurementPackage) (r : nat) :
  let out :=
    PredictRadarMeasurement s (VectorXd_alloc (n_z_ s))
      (MatrixXd_alloc (n_z_ s) (n_z_ s)) in
  let z_pred := snd (fst out) in
  let S := snd out in
  let Tc :=
    cross_correlation (fst (fst out)) z_pred
      (mfill (MatrixXd_alloc (n_x_ s) (n_z_ s)) 0.0) in
  let K := mmul Tc (inverse S) in
  x_ (UpdateRadar s meas_package) r
  = x_ s r
    + sum_upto (n_z_ s)
        (fun j => K r j * radar_residual (raw_measurements_ meas_package) z_pred j).
Proof.
  intros out z_pred S Tc K.
  unfold UpdateRadar. fold out. fold z_pred. fold S.
  cbn [x_ set_x_ set_P_].
  replace (n_x_ (fst (fst out))) with (n_x_ s) by reflexivity.
  replace (n_z_ (fst (fst out))) with (n_z_ s) by reflexivity.
  replace (x_ (fst (fst out))) with (x_ s) by reflexivity.
  fold Tc. fold K.
  unfold vadd, mvec. cbn [vcoeff].
  replace (cols K) with (n_z_ s); [reflexivity |].
  subst K. unfold mmul. cbn [cols].
  destruct (inverse_shape S) as [_ ->].
  destruct (PredictRadarMeasurement_shape s (VectorXd_alloc (n_z_ s))
              (MatrixXd_alloc (n_z_ s) (n_z_ s))) as (_ & _ & Hc).
  fold out in Hc. fold S in Hc. rewrite Hc. reflexivity.
Qed.

Lemma UpdateRadar_P (s : UKF) (meas_package : MeasurementPackage) (r k : nat) :
  let out :=
    PredictRadarMeasurement s (VectorXd_alloc (n_z_ s))
      (MatrixXd_alloc (n_z_ s) (n_z_ s)) in
  let z_pred := snd (fst out) in
  let S := snd out in
  let Tc :=
    cross_correlation (fst (fst out)) z_pred
      (mfill (MatrixXd_alloc (n_x_ s) (n_z_ s)) 0.0) in
  let K := mmul Tc (inverse S) in
  P_ (UpdateRadar s meas_package) r k
  = P_ s r k
    - sum_upto (n_z_ s)
        (fun j => sum_upto (n_z_ s) (fun l => K r l * S l j) * K k j).
Proof.
  intros out z_pred S Tc K.
  unfold UpdateRadar. fold out. fold z_pred. fold S.
  cbn [P_ set_x_ set_P_].
  replace (n_x_ (fst (fst out))) with (n_x_ s) by reflexivity.
  replace (n_z_ (fst (fst out))) with (n_z_ s) by reflexivity.
  replace (P_ (fst (fst out))) with (P_ s) by reflexivity.
  fold Tc. fold K.
  destruct (PredictRadarMeasurement_shape s (VectorXd_alloc (n_z_ s))
              (MatrixXd_alloc (n_z_ s) (n_z_ s))) as (_ & _ & Hc).
  fold out in Hc. fold S in Hc. cbn [cols MatrixXd_alloc] in Hc.
  assert (HK : cols K = n_z_ s).
  { subst K. unfold mmul. cbn [cols].
    destruct (inverse_shape S) as [_ ->]. exact Hc. }
  unfold msub, mmul at 1 2, transpose. cbn [mcoeff rows cols].
  rewrite HK, Hc. reflexivity.
Qed.

(** C4: the radar update.  From any configured object whose range-rate
    divisors are all non-zero, and any radar sample: (1) every predicted
    sigma point (p_x, p_y, v, yaw) is mapped to range
    [sqrt (p_x^2 + p_y^2)], bearing [atan2 p_y p_x] and range rate
    [(p_x v cos yaw + p_y v sin yaw) / range]; (2) with the fixed weights,
    [z_pred] is the weighted sum of the mapped points and [S] the weighted
    sum of the products of their differences to [z_pred] (bearing
    normalised) plus the fixed [RR_] = diag(0.3^2, 0.03^2, 0.3^2); (3) the
    gain is [K = Tc * S^-1] with [Tc] the weighted sum of the products of
    the state differences (heading normalised) and the measurement
    differences, the residual is [z - z_pred] with its bearing normalised,
    the new mean is [x_ + K * residual] and the new covariance
    [P_ - K * S * K^T].  Normalised means: the bearing of every
    measurement difference, the heading of every state difference and the
    bearing of the residual lie in [-M_PI, M_PI], hence in (-pi, pi], and
    differ from the plain difference by a whole number of turns
    [2 * M_PI].  At a zero divisor the program's quotient is a NaN or an
    infinity, which the reals do not have: the statement is for the
    objects on which every quotient is a number. *)
Theorem UpdateRadar_spec (s : UKF) (meas_package : MeasurementPackage) :
  configured s ->
  (forall i, (i < 15)%nat ->
     range (Xsig_pred_ s 0%nat i) (Xsig_pred_ s 1%nat i) <> 0) ->
  let out :=
    PredictRadarMeasurement s (VectorXd_alloc (n_z_ s))
      (MatrixXd_alloc (n_z_ s) (n_z_ s)) in
  let Zsig := Zsig_ (fst (fst out)) in
  let z_pred := snd (fst out) in
  let S := snd out in
  let z := raw_measurements_ meas_package in
  let w := weights_ s in
  let zd := z_diff Zsig z_pred in
  let xd := x_diff (Xsig_pred_ s) (x_ s) in
  let Tc := fun r k => sum_upto 15 (fun i => w i * xd i r * zd i k) in
  let Si := inverse S in
  let K := fun r k => sum_upto 3 (fun j => Tc r j * Si j k) in
  let residual :=
    fun j => if Nat.eqb j 1 then normalize_angle (z 1%nat - z_pred 1%nat)
             else z j - z_pred j in
  let s' := UpdateRadar s meas_package in
  (forall i, (i < 15)%nat ->
     let p_x := Xsig_pred_ s 0%nat i in
     let p_y := Xsig_pred_ s 1%nat i in
     let v := Xsig_pred_ s 2%nat i in
     let yaw := Xsig_pred_ s 3%nat i in
     Zsig 0%nat i = sqrt (p_x * p_x + p_y * p_y) /\
     Zsig 1%nat i = atan2 p_y p_x /\
     Zsig 2%nat i
     = (p_x * v * cos yaw + p_y * v * sin yaw) / sqrt (p_x * p_x + p_y * p_y)) /\
  (w 0%nat = - 2 / 5 /\ forall i, (1 <= i < 15)%nat -> w i = 1 / 10) /\
  (forall k, (k < 3)%nat -> z_pred k = sum_upto 15 (fun i => w i * Zsig k i)) /\
  (forall i k,
     zd i k = if Nat.eqb k 1 then normalize_angle (Zsig 1%nat i - z_pred 1%nat)
              else Zsig k i - z_pred k) /\
  (forall i k,
     xd i k = if Nat.eqb k 3
              then normalize_angle (Xsig_pred_ s 3%nat i - x_ s 3%nat)
              else Xsig_pred_ s k i - x_ s k) /\
  (forall i,
     - M_PI <= zd i 1%nat <= M_PI /\ - PI < zd i 1%nat <= PI /\
     exists n : Z,
       zd i 1%nat = Zsig 1%nat i - z_pred 1%nat + 2 * IZR n * M_PI) /\
  (forall i,
     - M_PI <= xd i 3%nat <= M_PI /\ - PI < xd i 3%nat <= PI /\
     exists n : Z,
       xd i 3%nat = Xsig_pred_ s 3%nat i - x_ s 3%nat + 2 * IZR n * M_PI) /\
  (- M_PI <= residual 1%nat <= M_PI /\ - PI < residual 1%nat <= PI /\
   exists n : Z,
     residual 1%nat = z 1%nat - z_pred 1%nat + 2 * IZR n * M_PI) /\
  (forall r k, (r < 3)%nat -> (k < 3)%nat ->
     S r k
     = sum_upto 15 (fun i => w i * zd i r * zd i k)
       + (if Nat.eqb r k
          then match r with
               | 0%nat => 0.3 * 0.3
               | 1%nat => 0.03 * 0.03
               | _ => 0.3 * 0.3
               end
          else 0)) /\
  (forall r, x_ s' r = x_ s r + sum_upto 3 (fun j => K r j * residual j)) /\
  (forall r k,
     P_ s' r k
     = P_ s r k
       - sum_upto 3 (fun j => sum_upto 3 (fun l => K r l * S l j) * K k j)).
Proof.
  intros Hcfg Hrange out Zsig z_pred S z w zd xd Tc Si K residual s'.
  assert (Hnorm : forall d,
            - M_PI <= normalize_angle d <= M_PI /\
            - PI < normalize_angle d <= PI /\
            exists n : Z, normalize_angle d = d + 2 * IZR n * M_PI).
  { intros d. pose proof (normalize_angle_inside d) as Hin.
    split; [apply normalize_angle_range |].
    split; [lra | apply normalize_angle_turns]. }
  pose proof (cfg_n_aug s Hcfg) as Hn.
  pose proof (cfg_n_z s Hcfg) as Hz.
  pose proof (cfg_n_x s Hcfg) as Hx.
  assert (HN : (2 * n_aug_ s + 1 = 15)%nat) by (rewrite Hn; reflexivity).
  assert (HK : forall r k,
            mmul (cross_correlation (fst (fst out)) z_pred
                    (mfill (MatrixXd_alloc (n_x_ s) (n_z_ s)) 0.0))
              (inverse S) r k = K r k).
  { intros r k. unfold mmul. cbn [mcoeff].
    destruct (cross_correlation_shape (fst (fst out)) z_pred
                (mfill (MatrixXd_alloc (n_x_ s) (n_z_ s)) 0.0)) as [_ ->].
    cbn [cols mfill MatrixXd_alloc]. rewrite Hz. subst K. cbv beta.
    apply sum_upto_ext. intros j _. f_equal.
    rewrite cross_correlation_coeff.
    replace (n_aug_ (fst (fst out))) with (n_aug_ s) by reflexivity.
    rewrite HN. eigen. subst Tc w xd zd Zsig. cbv beta.
    change (weights_ (fst (fst out))) with (weights_ s).
    change (Xsig_pred_ (fst (fst out))) with (Xsig_pred_ s).
    change (x_ (fst (fst out))) with (x_ s).
    lra. }
  rewrite Hz in HK.
  split.
  { intros i Hi p_x p_y v yaw. unfold Zsig, out.
    rewrite !Zsig_column by lia.
    unfold measure_column, range. eigen. rewrite !Nat.eqb_refl.
    cbn [Nat.eqb andb]. fold p_x p_y v yaw.
    repeat split. f_equal. ring. }
  split.
  { subst w. rewrite (cfg_weights s Hcfg).
    split; [exact weights_0 | exact weights_S]. }
  split.
  { intros k Hk. unfold z_pred, out.
    rewrite PredictRadarMeasurement_z_pred, HN. reflexivity. }
  split.
  { intros i k. subst zd. unfold z_diff. rewrite normalize_at_coeff.
    reflexivity. }
  split.
  { intros i k. subst xd. unfold x_diff. rewrite normalize_at_coeff.
    reflexivity. }
  split.
  { intros i. subst zd. unfold z_diff. rewrite normalize_at_coeff.
    cbn [Nat.eqb]. eigen. apply Hnorm. }
  split.
  { intros i. subst xd. unfold x_diff. rewrite normalize_at_coeff.
    cbn [Nat.eqb]. eigen. apply Hnorm. }
  split.
  { subst residual. cbn [Nat.eqb]. apply Hnorm. }
  split.
  { intros r k Hr Hk. unfold S, out.
    rewrite PredictRadarMeasurement_S, HN.
    apply f_equal2; [reflexivity |].
    rewrite (cfg_RR s Hcfg).
    do 3 (destruct r as [| r]; [do 3 (destruct k as [| k]; [cbn; lra |]); lia |]).
    lia. }
  split.
  { intros r. unfold s'. rewrite UpdateRadar_x. fold out. fold z_pred. fold S.
    rewrite Hz. apply f_equal2; [reflexivity |].
    apply sum_upto_ext. intros j _. rewrite HK. reflexivity. }
  intros r k. unfold s'. rewrite UpdateRadar_P. fold out. fold z_pred. fold S.
  rewrite Hz. apply f_equal2; [reflexivity |].
  apply sum_upto_ext. intros j _. rewrite HK.
  apply f_equal2; [| reflexivity].
  apply sum_upto_ext. intros l _. rewrite HK. reflexivity.
Qed.

(** ** The lidar update *)

Lemma H_coeff (r k : nat) :
  rows (H_ UKF_new) = 2%nat /\ cols (H_ UKF_new) = 5%nat /\
  ((r < 2)%nat -> (k < 5)%nat ->
   H_ UKF_new r k = if Nat.eqb r k then 1 else 0).
Proof.
  repeat split. intros Hr Hk.
  do 2 (destruct r as [| r]; [do 5 (destruct k as [| k]; [reflexivity |]); lia |]).
  lia.
Qed.

Lemma RL_coeff (r k : nat) :
  rows (RL_ UKF_new) = 2%nat /\ cols (RL_ UKF_new) = 2%nat /\
  ((r < 2)%nat -> (k < 2)%nat ->
   RL_ UKF_new r k = if Nat.eqb r k then 0.15 * 0.15 else 0).
Proof.
  repeat split. intros Hr Hk.
  do 2 (destruct r as [| r]; [do 2 (destruct k as [| k]; [reflexivity |]); lia |]).
  lia.
Qed.

(** C5: the lidar update.  From any configured object and any sample
    [z], [UpdateLidar] evaluates the linear Kalman equations with the
    fixed [H_] = [[1,0,0,0,0],[0,1,0,0,0]] and [RL_] = diag(0.15^2,
    0.15^2): residual [y = z - H x], innovation covariance
    [S = H P H^T + RL_], gain [K = P H^T S^-1], new mean [x + K y] and
    new covariance [(I - K H) P].  Coefficient by coefficient the
    residual is the plain difference [z k - x k]: no angle is
    normalised. *)
Theorem UpdateLidar_spec (s : UKF) (meas_package : MeasurementPackage) :
  configured s ->
  let z := raw_measurements_ meas_package in
  let x := x_ s in
  let P := P_ s in
  let H := H_ s in
  let y := vsub (head z 2) (mvec H x) in
  let S := madd (mmul (mmul H P) (transpose H)) (RL_ s) in
  let K := mmul (mmul P (transpose H)) (inverse S) in
  let s' := UpdateLidar s meas_package in
  (rows H = 2%nat /\ cols H = 5%nat /\
   forall r k, (r < 2)%nat -> (k < 5)%nat ->
     H r k = if Nat.eqb r k then 1 else 0) /\
  (rows (RL_ s) = 2%nat /\ cols (RL_ s) = 2%nat /\
   forall r k, (r < 2)%nat -> (k < 2)%nat ->
     RL_ s r k = if Nat.eqb r k then 0.15 * 0.15 else 0) /\
  x_ s' = vadd x (mvec K y) /\
  P_ s' = mmul (msub (Identity 5 5) (mmul K H)) P /\
  (forall k, (k < 2)%nat -> y k = z k - x k) /\
  (forall r k, (r < 2)%nat -> (k < 2)%nat ->
     S r k = P r k + (if Nat.eqb r k then 0.15 * 0.15 else 0)) /\
  (forall r k, K r k = P r 0%nat * inverse S 0%nat k + P r 1%nat * inverse S 1%nat k) /\
  (forall r,
     x_ s' r = x r + (K r 0%nat * (z 0%nat - x 0%nat) + K r 1%nat * (z 1%nat - x 1%nat))) /\
  (forall r k, (r < 5)%nat ->
     P_ s' r k = P r k - (K r 0%nat * P 0%nat k + K r 1%nat * P 1%nat k)).
Proof.
  intros Hcfg z x P H y S K s'.
  pose proof (cfg_H s Hcfg) as HH.
  pose proof (cfg_RL s Hcfg) as HR.
  pose proof (cfg_P_cols s Hcfg) as HPc.
  assert (HHc : forall r k, (r < 2)%nat -> (k < 5)%nat ->
            H r k = if Nat.eqb r k then 1 else 0).
  { intros r k. unfold H. rewrite HH. apply H_coeff. }
  assert (Hy : forall k, (k < 2)%nat -> y k = z k - x k).
  { intros k Hk. unfold y, vsub, head, mvec. cbn [vcoeff].
    replace (cols H) with 5%nat by (unfold H; rewrite HH; reflexivity).
    cbn [sum_upto]. rewrite !HHc by lia.
    do 2 (destruct k as [| k]; [cbn [Nat.eqb]; ring |]). lia. }
  assert (HcS : cols (inverse S) = 2%nat).
  { destruct (inverse_shape S) as [_ ->]. unfold S, madd, mmul, transpose.
    cbn [cols rows]. unfold H. rewrite HH. reflexivity. }
  assert (HK : forall r k,
            K r k = P r 0%nat * inverse S 0%nat k + P r 1%nat * inverse S 1%nat k).
  { intros r k. unfold K, mmul, transpose. cbn [cols rows mcoeff].
    replace (rows H) with 2%nat by (unfold H; rewrite HH; reflexivity).
    replace (cols P) with 5%nat by (symmetry; exact HPc).
    cbn [sum_upto]. rewrite !HHc by lia. cbn [Nat.eqb]. ring. }
  split.
  { unfold H. rewrite HH. repeat split. intros r k. apply H_coeff. }
  split.
  { rewrite HR. repeat split. intros r k. apply RL_coeff. }
  split; [reflexivity |].
  split; [reflexivity |].
  split; [exact Hy |].
  split.
  { intros r k Hr Hk. unfold S, madd. cbn [mcoeff].
    rewrite HR. destruct (RL_coeff r k) as (_ & _ & ->); [| lia | lia].
    apply f_equal2; [| reflexivity].
    unfold mmul at 1, transpose. cbn [cols rows mcoeff].
    unfold mmul. cbn [cols rows mcoeff].
    replace (cols H) with 5%nat by (unfold H; rewrite HH; reflexivity).
    fold P. replace (cols P) with 5%nat by (symmetry; exact HPc).
    cbn [sum_upto].
    do 2 (destruct r as [| r];
          [do 2 (destruct k as [| k];
                 [rewrite !HHc by lia; cbn [Nat.eqb]; ring |]); lia |]).
    lia. }
  split; [exact HK |].
  split.
  { intros r. unfold s', UpdateLidar. cbn [x_ set_x_ set_P_].
    fold z. fold x. fold P. fold H. fold y. fold S. fold K.
    unfold vadd, mvec. cbn [vcoeff].
    replace (cols K) with 2%nat by (unfold K, mmul; cbn [cols]; rewrite HcS; reflexivity).
    cbn [sum_upto]. rewrite !Hy by lia. ring. }
  intros r k Hr. unfold s', UpdateLidar. cbn [P_ set_x_ set_P_].
  fold z. fold x. fold P. fold H. fold y. fold S. fold K.
  unfold mmul at 1. cbn [mcoeff].
  unfold msub, Identity. cbn [cols rows mcoeff].
  unfold mmul at 1. cbn [mcoeff].
  replace (cols K) with 2%nat by (unfold K, mmul; cbn [cols]; rewrite HcS; reflexivity).
  cbn [sum_upto]. rewrite !HHc by lia.
  do 5 (destruct r as [| r]; [cbn [Nat.eqb]; ring |]). lia.
Qed.

(** ** The configuration is invariant *)

Lemma configured_UKF_new : configured UKF_new.
Proof. constructor; reflexivity. Qed.

Lemma configured_Prediction (s : UKF) (delta_t : R) :
  configured s -> configured (Prediction s delta_t).
Proof.
  intros Hcfg. destruct Hcfg. constructor; try assumption.
  - unfold Prediction, PredictMeanAndCovariance. cbn [x_ set_x_ set_P_].
    unfold weighted_mean. rewrite for_loop_vadd_size. assumption.
  - unfold Prediction, PredictMeanAndCovariance. cbn [P_ set_x_ set_P_].
    match goal with
    | |- context [for_loop ?n (fun i A => madd A (@?g i)) ?acc] =>
        destruct (for_loop_madd_shape g n acc) as [-> _]
    end. assumption.
  - unfold Prediction, PredictMeanAndCovariance. cbn [P_ set_x_ set_P_].
    match goal with
    | |- context [for_loop ?n (fun i A => madd A (@?g i)) ?acc] =>
        destruct (for_loop_madd_shape g n acc) as [_ ->]
    end. assumption.
Qed.

Lemma configured_UpdateLidar (s : UKF) (meas_package : MeasurementPackage) :
  configured s -> configured (UpdateLidar s meas_package).
Proof. intros Hcfg. destruct Hcfg. constructor; try assumption. reflexivity. Qed.

Lemma configured_UpdateRadar (s : UKF) (meas_package : MeasurementPackage) :
  configured s -> configured (UpdateRadar s meas_package).
Proof. intros Hcfg. destruct Hcfg. constructor; assumption. Qed.

Lemma configured_set_time_ (s : UKF) (t : Z) :
  configured s -> configured (set_time_ s t).
Proof. intros Hcfg. destruct Hcfg. constructor; assumption. Qed.

(** X1: no method changes what the constructor fixed.  Every call of
    [ProcessMeasurement] that returns leaves the object configured: the
    dimensions, the weights, [lambda_], the noise constants, [H_], [RL_]
    and [RR_] are those of a fresh object, and the mean and covariance
    keep their sizes. *)
Lemma configured_ProcessMeasurement (s s' : UKF)
  (meas_package : MeasurementPackage) :
  configured s -> ProcessMeasurement s meas_package = Returned s' ->
  configured s'.
Proof.
  intros Hcfg. unfold ProcessMeasurement.
  destruct (is_initialized_ s); cbn [negb].
  - pose proof (configured_Prediction _
        (IZR (timestamp_ meas_package - time_ s) / 1.0e6)
        (configured_set_time_ s (timestamp_ meas_package) Hcfg)) as Hp.
    destruct (sensor_type_ meas_package); intros Heq;
      [ | | discriminate Heq]; injection Heq as <-.
    + destruct (use_laser_ _);
        [apply configured_UpdateLidar |]; exact Hp.
    + destruct (use_radar_ _);
        [apply configured_UpdateRadar |]; exact Hp.
  - destruct (sensor_type_ meas_package); intros Heq; injection Heq as <-;
      try exact Hcfg.
    destruct Hcfg. constructor; assumption.
Qed.

(** ** The dispatcher *)

(** C6: the first sample.  On an object that is not yet initialised (with
    its 5-coefficient mean), [ProcessMeasurement] always returns; the
    object it leaves is initialised if and only if the sample is tagged
    [LASER]; in that case the two position coefficients of the mean are
    the raw values, speed, heading and yaw rate are 0, the timestamp is
    the sample's and everything else is untouched; for a sample tagged
    [RADAR] the object is left exactly as it was. *)
Theorem first_measurement (s : UKF) (meas_package : MeasurementPackage) :
  is_initialized_ s = false -> vsize (x_ s) = 5%nat ->
  exists s',
    ProcessMeasurement s meas_package = Returned s' /\
    (is_initialized_ s' = true <-> sensor_type_ meas_package = LASER) /\
    (sensor_type_ meas_package = LASER ->
       x_ s' 0%nat = raw_measurements_ meas_package 0%nat /\
       x_ s' 1%nat = raw_measurements_ meas_package 1%nat /\
       x_ s' 2%nat = 0 /\ x_ s' 3%nat = 0 /\ x_ s' 4%nat = 0 /\
       time_ s' = timestamp_ meas_package /\
       is_initialized_ s' = true /\
       set_is_initialized_ (set_time_ (set_x_ s' (x_ s)) (time_ s)) false = s) /\
    (sensor_type_ meas_package = RADAR -> s' = s).
Proof.
  intros Hinit Hsize. unfold ProcessMeasurement. rewrite Hinit. cbn [negb].
  destruct (sensor_type_ meas_package) eqn:Htag.
  - eexists. split; [reflexivity |].
    cbn [is_initialized_ set_is_initialized_ x_ set_x_ time_ set_time_].
    split; [split; reflexivity |]. split; [| discriminate].
    intros _. eigen. rewrite Hsize. cbn [Nat.sub Nat.leb Nat.ltb].
    repeat split; try lra.
    destruct s. cbn in Hinit. subst. reflexivity.
  - exists s. split; [reflexivity |]. rewrite Hinit.
    split; [split; discriminate |]. split; [discriminate | reflexivity].
  - exists s. split; [reflexivity |]. rewrite Hinit.
    split; [split; discriminate |]. split; discriminate.
Qed.

(** C7 (amended): a sample whose tag is neither [LASER] nor [RADAR] ends
    the process with [exit(1)], after the message is written, when the
    object is initialised; when it is not, the call returns and leaves
    the object as it was. *)
Theorem unknown_sensor (s : UKF) (meas_package : MeasurementPackage) :
  sensor_type_ meas_package = UNKNOWN ->
  ProcessMeasurement s meas_package
  = if is_initialized_ s then Exited 1 "Error: Unknown measurement source."
    else Returned s.
Proof.
  intros Htag. unfold ProcessMeasurement. rewrite Htag.
  destruct (is_initialized_ s); reflexivity.
Qed.

(** C8: a disabled sensor.  On an initialised object, a [RADAR] sample
    with [use_radar_] false, or a [LASER] sample with [use_laser_] false,
    makes [ProcessMeasurement] store the sample's timestamp and run
    [Prediction] over the elapsed time, and nothing more: the object
    returned is the predicted one, so its mean and covariance are the
    predicted mean and covariance. *)
Theorem disabled_sensor_predicts_only (s : UKF)
  (meas_package : MeasurementPackage) :
  is_initialized_ s = true ->
  (sensor_type_ meas_package = RADAR /\ use_radar_ s = false) \/
  (sensor_type_ meas_package = LASER /\ use_laser_ s = false) ->
  let delta_t := IZR (timestamp_ meas_package - time_ s) / 1.0e6 in
  let predicted := Prediction (set_time_ s (timestamp_ meas_package)) delta_t in
  exists s',
    ProcessMeasurement s meas_package = Returned s' /\
    s' = predicted /\
    time_ s' = timestamp_ meas_package /\
    x_ s' = x_ predicted /\
    P_ s' = P_ predicted /\
    predicted
    = PredictMeanAndCovariance
        (SigmaPointPrediction
           (AugmentedSigmaPoints (set_time_ s (timestamp_ meas_package)))
           delta_t).
Proof.
  intros Hinit Hoff delta_t predicted. exists predicted.
  split.
  - unfold ProcessMeasurement. rewrite Hinit. cbn [negb].
    fold delta_t. fold predicted.
    replace (use_radar_ predicted) with (use_radar_ s) by reflexivity.
    replace (use_laser_ predicted) with (use_laser_ s) by reflexivity.
    destruct Hoff as [[-> ->] | [-> ->]]; reflexivity.
  - repeat split.
Qed.

(** * Further properties of the filter *)

(** ** The normalisation as a function *)

(** Two values between [-M_PI] and [M_PI] a whole number of steps of
    [2 * M_PI] apart, one of them strictly inside, are equal. *)
Lemma turns_unique (a b : R) (k : Z) :
  - M_PI < a < M_PI -> - M_PI <= b <= M_PI -> b = a + 2 * IZR k * M_PI ->
  b = a.
Proof.
  intros Ha Hb Hk. pose proof M_PI_pos as Hpi.
  assert (Hlt : (-1 < k < 1)%Z).
  { split; apply lt_IZR.
    - apply (Rmult_lt_reg_r (2 * M_PI)); [lra |]. lra.
    - apply (Rmult_lt_reg_r (2 * M_PI)); [lra |]. lra. }
  assert (k = 0%Z) by lia. subst k. lra.
Qed.

(** X3: normalising twice is normalising once, and the values the
    normalisation leaves as they are are exactly those between [-M_PI]
    and [M_PI], both included (the doubles of that interval are the
    doubles of [[-pi, pi]]). *)
Theorem normalize_angle_idempotent (d : R) :
  normalize_angle (normalize_angle d) = normalize_angle d /\
  (normalize_angle d = d <-> - M_PI <= d <= M_PI).
Proof.
  split.
  - apply normalize_angle_id, normalize_angle_range.
  - split.
    + intros H. rewrite <- H. apply normalize_angle_range.
    + apply normalize_angle_id.
Qed.

(** X4: away from the two ends of the interval the normalisation is
    periodic: when the normalised value of [d] lies strictly between
    [-M_PI] and [M_PI], every angle a whole number of steps of
    [2 * M_PI] away from [d] normalises to the same value. *)
Theorem normalize_angle_periodic (d : R) (k : Z) :
  - M_PI < normalize_angle d < M_PI ->
  normalize_angle (d + 2 * IZR k * M_PI) = normalize_angle d.
Proof.
  intros Hin.
  destruct (normalize_angle_turns d) as [k1 H1].
  destruct (normalize_angle_turns (d + 2 * IZR k * M_PI)) as [k2 H2].
  apply (turns_unique _ _ (k + k2 - k1)%Z).
  - exact Hin.
  - apply normalize_angle_range.
  - rewrite H2, H1, minus_IZR, plus_IZR. ring.
Qed.

(** ** What the dispatcher keeps *)

(** X2: whenever [ProcessMeasurement] returns, the two sensor switches are
    as they were, an object that was initialised is still initialised, and
    an initialised object holds the timestamp of the sample just
    processed. *)
Theorem ProcessMeasurement_keeps (s s' : UKF) (meas_package : MeasurementPackage) :
  ProcessMeasurement s meas_package = Returned s' ->
  use_laser_ s' = use_laser_ s /\
  use_radar_ s' = use_radar_ s /\
  (is_initialized_ s = true -> is_initialized_ s' = true) /\
  (is_initialized_ s' = true -> time_ s' = timestamp_ meas_package).
Proof.
  unfold ProcessMeasurement.
  destruct (is_initialized_ s) eqn:Hinit; cbn [negb].
  - destruct (sensor_type_ meas_package); intros Heq;
      [ | | discriminate Heq]; injection Heq as <-.
    + cbn [use_laser_ Prediction PredictMeanAndCovariance SigmaPointPrediction
             AugmentedSigmaPoints set_x_ set_P_ set_Xsig_pred_ set_Xsig_aug_
             set_time_].
      destruct (use_laser_ s) eqn:Hl; repeat split; auto.
    + cbn [use_radar_ Prediction PredictMeanAndCovariance SigmaPointPrediction
             AugmentedSigmaPoints set_x_ set_P_ set_Xsig_pred_ set_Xsig_aug_
             set_time_].
      destruct (use_radar_ s) eqn:Hr; repeat split; auto.
  - destruct (sensor_type_ meas_package); intros Heq; injection Heq as <-;
      repeat split; auto; try discriminate;
      intros H; rewrite Hinit in H; discriminate H.
Qed.


(** ** The moments of the sigma points *)

Lemma sum_upto_plus (n : nat) (f g : nat -> R) :
  sum_upto n (fun i => f i + g i) = sum_upto n f + sum_upto n g.
Proof. induction n as [| n IH]; simpl; [ring | rewrite IH; ring]. Qed.

Lemma sum_upto_scal (n : nat) (f : nat -> R) (c : R) :
  sum_upto n (fun i => f i * c) = sum_upto n f * c.
Proof. induction n as [| n IH]; simpl; [ring | rewrite IH; ring]. Qed.

Lemma weighted_constant (s : UKF) (a : R) (g : nat -> R) :
  configured s ->
  sum_upto 15 (fun i => weights_ s i * a + weights_ s i * g i)
  = a + sum_upto 15 (fun i => weights_ s i * g i).
Proof.
  intros Hcfg.
  rewrite (sum_upto_plus 15 (fun i => weights_ s i * a)
             (fun i => weights_ s i * g i)).
  rewrite (sum_upto_scal 15 (weights_ s) a).
  rewrite (cfg_weights s Hcfg), weights_sum. ring.
Qed.

Lemma Xsig_aug_offset (s : UKF) (i r : nat) :
  (i < 2 * n_aug_ s + 1)%nat ->
  Xsig_aug_ (AugmentedSigmaPoints s) r i = x_aug s r + sigma_offset s i r.
Proof.
  intros Hi. destruct (Xsig_aug_columns s) as [Hcol0 Hcols].
  unfold sigma_offset. destruct i as [| j].
  - rewrite Hcol0. ring.
  - destruct (Nat.ltb_spec j (n_aug_ s)) as [Hlt | Hge].
    + destruct (Hcols j r Hlt) as [Hp _].
      replace (S j) with (j + 1)%nat by lia. rewrite Hp. reflexivity.
    + destruct (Hcols (j - n_aug_ s)%nat r ltac:(lia)) as [_ Hm].
      replace (S j) with (j - n_aug_ s + 1 + n_aug_ s)%nat by lia.
      rewrite Hm. ring.
Qed.

Lemma sigma_scale_sqr (s : UKF) :
  configured s ->
  sqrt (lambda_ s + INR (n_aug_ s)) * sqrt (lambda_ s + INR (n_aug_ s)) = 5.
Proof.
  intros Hcfg. rewrite (cfg_lambda s Hcfg), (cfg_n_aug s Hcfg).
  rewrite sqrt_sqrt; simpl; lra.
Qed.

Lemma sigma_offset_mean (s : UKF) (r : nat) :
  configured s ->
  sum_upto 15 (fun i => weights_ s i * sigma_offset s i r) = 0.
Proof.
  intros Hcfg. unfold sigma_offset.
  rewrite (cfg_weights s Hcfg), (cfg_n_aug s Hcfg).
  cbn [sum_upto Nat.ltb Nat.leb Nat.sub].
  rewrite weights_0, !weights_S by lia. field.
Qed.

Lemma sigma_offset_cov (s : UKF) (r k : nat) :
  configured s ->
  sum_upto 15 (fun i => weights_ s i * sigma_offset s i r * sigma_offset s i k)
  = sum_upto 7
      (fun j => llt_matrixL (P_aug s) r j * llt_matrixL (P_aug s) k j).
Proof.
  intros Hcfg. pose proof (sigma_scale_sqr s Hcfg) as Hc.
  unfold sigma_offset. set (c := sqrt (lambda_ s + INR (n_aug_ s))) in *.
  set (L := llt_matrixL (P_aug s)).
  rewrite (cfg_weights s Hcfg), (cfg_n_aug s Hcfg).
  cbn [sum_upto Nat.ltb Nat.leb Nat.sub].
  rewrite weights_0, !weights_S by lia.
  transitivity
    (c * c / 5
     * (L r 0%nat * L k 0%nat + L r 1%nat * L k 1%nat + L r 2%nat * L k 2%nat
        + L r 3%nat * L k 3%nat + L r 4%nat * L k 4%nat + L r 5%nat * L k 5%nat
        + L r 6%nat * L k 6%nat)).
  - field.
  - rewrite Hc. field.
Qed.

(** X6: the sigma points carry the augmented mean and the factor [L].
    For every configured object and whatever matrix [L] the Cholesky call
    returns, the weighted sum of the columns of [Xsig_aug_] is the
    augmented mean, and the weighted sum of the products of their
    offsets from it is [L * L^T]. *)
Theorem sigma_points_moments (s : UKF) :
  configured s ->
  let X := Xsig_aug_ (AugmentedSigmaPoints s) in
  let L := llt_matrixL (P_aug s) in
  (forall r, sum_upto 15 (fun i => weights_ s i * X r i) = x_aug s r) /\
  (forall r k,
     sum_upto 15
       (fun i => weights_ s i * (X r i - x_aug s r) * (X k i - x_aug s k))
     = sum_upto 7 (fun j => L r j * L k j)).
Proof.
  intros Hcfg X L.
  assert (HN : (2 * n_aug_ s + 1 = 15)%nat)
    by (rewrite (cfg_n_aug s Hcfg); reflexivity).
  split.
  - intros r.
    rewrite (sum_upto_ext _ _
               (fun i => weights_ s i * x_aug s r
                         + weights_ s i * sigma_offset s i r)).
    + rewrite (weighted_constant s _ _ Hcfg), (sigma_offset_mean s r Hcfg).
      ring.
    + intros i Hi. unfold X. rewrite Xsig_aug_offset by lia. ring.
  - intros r k. unfold L. rewrite <- (sigma_offset_cov s r k Hcfg).
    apply sum_upto_ext. intros i Hi. unfold X.
    rewrite !Xsig_aug_offset by lia. ring.
Qed.

(** ** Prediction over no elapsed time, continued *)

Lemma Prediction_zero_x (s : UKF) (r : nat) :
  configured s -> (r < 5)%nat -> x_ (Prediction s 0) r = x_ s r.
Proof.
  intros Hcfg Hr.
  assert (HN : (2 * n_aug_ s + 1 = 15)%nat)
    by (rewrite (cfg_n_aug s Hcfg); reflexivity).
  unfold Prediction. rewrite PredictMeanAndCovariance_x.
  cbn [n_aug_ weights_ SigmaPointPrediction AugmentedSigmaPoints
         set_Xsig_pred_ set_Xsig_aug_].
  rewrite HN.
  rewrite (sum_upto_ext _ _
             (fun i => weights_ s i * x_aug s r
                       + weights_ s i * sigma_offset s i r)).
  - rewrite (weighted_constant s _ _ Hcfg), (sigma_offset_mean s r Hcfg).
    destruct (x_aug_coeff s) as (_ & Hx & _). rewrite (Hx r Hr). ring.
  - intros i Hi.
    rewrite Xsig_pred_column
      by (assumption || (cbn [n_aug_ AugmentedSigmaPoints set_Xsig_aug_]; lia)).
    rewrite predict_column_zero by exact Hr.
    rewrite Xsig_aug_offset by lia. ring.
Qed.


Lemma x_diff_zero_time (s : UKF) (i r : nat) :
  configured s -> (i < 15)%nat -> (r < 5)%nat ->
  (r = 3%nat -> - M_PI <= sigma_offset s i 3%nat <= M_PI) ->
  x_diff (Xsig_pred_ (SigmaPointPrediction (AugmentedSigmaPoints s) 0))
    (x_ (Prediction s 0)) i r
  = sigma_offset s i r.
Proof.
  intros Hcfg Hi Hr Hsmall.
  assert (HN : (2 * n_aug_ s + 1 = 15)%nat)
    by (rewrite (cfg_n_aug s Hcfg); reflexivity).
  assert (Hraw : forall q, (q < 5)%nat ->
            Xsig_pred_ (SigmaPointPrediction (AugmentedSigmaPoints s) 0) q i
            - x_ (Prediction s 0) q
            = sigma_offset s i q).
  { intros q Hq.
    rewrite Xsig_pred_column
      by (assumption || (cbn [n_aug_ AugmentedSigmaPoints set_Xsig_aug_]; lia)).
    rewrite predict_column_zero by exact Hq.
    rewrite Xsig_aug_offset by lia.
    rewrite Prediction_zero_x by assumption.
    destruct (x_aug_coeff s) as (_ & Hx & _). rewrite (Hx q Hq). ring. }
  unfold x_diff. rewrite normalize_at_coeff.
  unfold vsub, col. cbn [vcoeff].
  destruct (Nat.eqb_spec r 3) as [-> | Hne].
  - rewrite Hraw by lia. apply normalize_angle_id, Hsmall. reflexivity.
  - apply Hraw. exact Hr.
Qed.

(** X7: prediction over [delta_t = 0] gives back the covariance.  When
    the matrix [L] returned by the Cholesky call satisfies
    [L * L^T = P_] on the state block, the entries of the predicted
    covariance outside the heading row and column equal those of [P_];
    when moreover every scaled heading entry of [L] lies between
    [-M_PI] and [M_PI] (the doubles of that interval are the doubles of
    [[-pi, pi]]), so that no heading difference is wrapped, the whole
    predicted covariance equals [P_]. *)
Theorem Prediction_zero_covariance (s : UKF) :
  configured s ->
  (forall r k, (r < 5)%nat -> (k < 5)%nat ->
     sum_upto 7
       (fun j => llt_matrixL (P_aug s) r j * llt_matrixL (P_aug s) k j)
     = P_ s r k) ->
  (forall r k, (r < 5)%nat -> (k < 5)%nat -> r <> 3%nat -> k <> 3%nat ->
     P_ (Prediction s 0) r k = P_ s r k) /\
  ((forall j, (j < 7)%nat ->
      - M_PI
      <= sqrt (lambda_ s + INR (n_aug_ s)) * llt_matrixL (P_aug s) 3%nat j
      <= M_PI) ->
   forall r k, (r < 5)%nat -> (k < 5)%nat ->
     P_ (Prediction s 0) r k = P_ s r k).
Proof.
  intros Hcfg Hchol.
  pose proof (cfg_n_aug s Hcfg) as Hn.
  assert (Hcov : forall r k, (r < 5)%nat -> (k < 5)%nat ->
            (forall i, (i < 15)%nat -> r = 3%nat \/ k = 3%nat ->
               - M_PI <= sigma_offset s i 3%nat <= M_PI) ->
            P_ (Prediction s 0) r k = P_ s r k).
  { intros r k Hr Hk Hsmall.
    unfold Prediction at 1. rewrite PredictMeanAndCovariance_P.
    cbn [n_aug_ weights_ SigmaPointPrediction AugmentedSigmaPoints
           set_Xsig_pred_ set_Xsig_aug_].
    rewrite Hn. cbn [Nat.mul Nat.add].
    rewrite <- (Hchol r k Hr Hk), <- (sigma_offset_cov s r k Hcfg).
    apply sum_upto_ext. intros i Hi.
    change (x_ (PredictMeanAndCovariance
                  (SigmaPointPrediction (AugmentedSigmaPoints s) 0)))
      with (x_ (Prediction s 0)).
    change (Xsig_pred_ (set_Xsig_pred_ (set_Xsig_aug_ s
              (Xsig_aug_ (AugmentedSigmaPoints s)))
              (Xsig_pred_ (SigmaPointPrediction (AugmentedSigmaPoints s) 0))))
      with (Xsig_pred_ (SigmaPointPrediction (AugmentedSigmaPoints s) 0)).
    rewrite !x_diff_zero_time by (auto; intros ->; apply Hsmall; auto).
    reflexivity. }
  split.
  - intros r k Hr Hk Hr3 Hk3. apply Hcov; try assumption.
    intros i _ [H | H]; contradiction.
  - intros Hhead r k Hr Hk. apply Hcov; try assumption.
    intros i Hi _. pose proof M_PI_pos as Hpi.
    unfold sigma_offset. destruct i as [| j]; [lra |].
    destruct (Nat.ltb_spec j (n_aug_ s)) as [Hlt | Hge].
    + apply Hhead. lia.
    + assert (Hj : (j - n_aug_ s < 7)%nat) by lia.
      pose proof (Hhead (j - n_aug_ s)%nat Hj) as Hb. lra.
Qed.

(** X8: a sample that carries the stored timestamp and whose sensor is
    switched off leaves the mean where it was: the call returns, and the
    five coefficients of [x_] and the stored time are unchanged. *)
Theorem stale_sample_keeps_mean (s : UKF) (meas_package : MeasurementPackage) :
  configured s ->
  is_initialized_ s = true ->
  timestamp_ meas_package = time_ s ->
  (sensor_type_ meas_package = RADAR /\ use_radar_ s = false) \/
  (sensor_type_ meas_package = LASER /\ use_laser_ s = false) ->
  exists s',
    ProcessMeasurement s meas_package = Returned s' /\
    time_ s' = time_ s /\
    forall r, (r < 5)%nat -> x_ s' r = x_ s r.
Proof.
  intros Hcfg Hinit Htime Hoff.
  exists (Prediction (set_time_ s (timestamp_ meas_package)) 0).
  split; [| split].
  - unfold ProcessMeasurement. rewrite Hinit. cbn [negb].
    replace (IZR (timestamp_ meas_package - time_ s) / 1.0e6) with 0
      by (rewrite Htime, Z.sub_diag; lra).
    set (predicted := Prediction (set_time_ s (timestamp_ meas_package)) 0).
    replace (use_radar_ predicted) with (use_radar_ s) by reflexivity.
    replace (use_laser_ predicted) with (use_laser_ s) by reflexivity.
    destruct Hoff as [[-> ->] | [-> ->]]; reflexivity.
  - exact Htime.
  - intros r Hr.
    rewrite Prediction_zero_x
      by (try apply configured_set_time_; assumption).
    reflexivity.
Qed.


(** ** The lidar update, coefficient by coefficient *)

Lemma H_configured (s : UKF) (r k : nat) :
  configured s -> (r < 2)%nat -> (k < 5)%nat ->
  H_ s r k = if Nat.eqb r k then 1 else 0.
Proof. intros Hcfg. rewrite (cfg_H s Hcfg). apply H_coeff. Qed.

Lemma lidar_S_coeff (s : UKF) (r k : nat) :
  configured s -> (r < 2)%nat -> (k < 2)%nat ->
  lidar_S s r k = P_ s r k + (if Nat.eqb r k then 0.15 * 0.15 else 0).
Proof.
  intros Hcfg Hr Hk. unfold lidar_S, madd. cbn [mcoeff].
  rewrite (cfg_RL s Hcfg) at 1.
  destruct (RL_coeff r k) as (_ & _ & ->); [| lia | lia].
  apply f_equal2; [| reflexivity].
  unfold mmul, transpose. cbn [cols rows mcoeff].
  rewrite (cfg_P_cols s Hcfg).
  replace (cols (H_ s)) with 5%nat by (rewrite (cfg_H s Hcfg); reflexivity).
  cbn [sum_upto].
  do 2 (destruct r as [| r];
        [do 2 (destruct k as [| k];
               [rewrite !(H_configured s) by (assumption || lia);
                cbn [Nat.eqb]; ring |]); lia |]).
  lia.
Qed.

Lemma lidar_K_coeff (s : UKF) (r k : nat) :
  configured s ->
  lidar_K s r k
  = P_ s r 0%nat * inverse (lidar_S s) 0%nat k
    + P_ s r 1%nat * inverse (lidar_S s) 1%nat k.
Proof.
  intros Hcfg. unfold lidar_K, mmul, transpose. cbn [cols rows mcoeff].
  replace (rows (H_ s)) with 2%nat by (rewrite (cfg_H s Hcfg); reflexivity).
  rewrite (cfg_P_cols s Hcfg). cbn [sum_upto].
  rewrite !(H_configured s) by (assumption || lia). cbn [Nat.eqb]. ring.
Qed.

Lemma lidar_K_cols (s : UKF) : configured s -> cols (lidar_K s) = 2%nat.
Proof.
  intros Hcfg. unfold lidar_K, mmul. cbn [cols].
  destruct (inverse_shape (lidar_S s)) as [_ ->].
  unfold lidar_S, madd, mmul, transpose. cbn [cols rows].
  rewrite (cfg_H s Hcfg). reflexivity.
Qed.

Lemma UpdateLidar_x_coeff (s : UKF) (meas_package : MeasurementPackage) (r : nat) :
  configured s ->
  let z := raw_measurements_ meas_package in
  x_ (UpdateLidar s meas_package) r
  = x_ s r
    + (lidar_K s r 0%nat * (z 0%nat - x_ s 0%nat)
       + lidar_K s r 1%nat * (z 1%nat - x_ s 1%nat)).
Proof.
  intros Hcfg z. unfold UpdateLidar. cbn [x_ set_x_ set_P_].
  fold (lidar_S s). fold (lidar_K s).
  unfold vadd, mvec at 1. cbn [vcoeff].
  rewrite (lidar_K_cols s Hcfg). cbn [sum_upto].
  unfold vsub, head, mvec. cbn [vcoeff].
  replace (cols (H_ s)) with 5%nat by (rewrite (cfg_H s Hcfg); reflexivity).
  cbn [sum_upto]. rewrite !(H_configured s) by (assumption || lia).
  cbn [Nat.eqb]. fold z. ring.
Qed.

Lemma UpdateLidar_P_coeff (s : UKF) (meas_package : MeasurementPackage)
  (r k : nat) :
  configured s -> (r < 5)%nat ->
  P_ (UpdateLidar s meas_package) r k
  = P_ s r k
    - (lidar_K s r 0%nat * P_ s 0%nat k + lidar_K s r 1%nat * P_ s 1%nat k).
Proof.
  intros Hcfg Hr. unfold UpdateLidar. cbn [P_ set_x_ set_P_].
  fold (lidar_S s). fold (lidar_K s).
  unfold mmul at 1. cbn [mcoeff].
  unfold msub, Identity. cbn [cols rows mcoeff].
  unfold mmul at 1. cbn [mcoeff].
  rewrite (lidar_K_cols s Hcfg). cbn [sum_upto].
  rewrite !(H_configured s) by (assumption || lia).
  do 5 (destruct r as [| r]; [cbn [Nat.eqb]; ring |]). lia.
Qed.

(** X11: what the lidar update leaves of the residual.  When the matrix
    returned by [inverse()] is a right inverse of the innovation
    covariance [S], the distance from the sample to the updated position
    is the measurement noise [0.15^2] times [S^-1] applied to the
    residual before the update. *)
Theorem UpdateLidar_posterior_residual (s : UKF)
  (meas_package : MeasurementPackage) :
  configured s ->
  (forall r k, (r < 2)%nat -> (k < 2)%nat ->
     mmul (lidar_S s) (inverse (lidar_S s)) r k = Identity 2 2 r k) ->
  let z := raw_measurements_ meas_package in
  let Si := inverse (lidar_S s) in
  forall k, (k < 2)%nat ->
    z k - x_ (UpdateLidar s meas_package) k
    = 0.15 * 0.15
      * (Si k 0%nat * (z 0%nat - x_ s 0%nat) + Si k 1%nat * (z 1%nat - x_ s 1%nat)).
Proof.
  intros Hcfg Hinv z Si k Hk.
  assert (HScols : cols (lidar_S s) = 2%nat).
  { unfold lidar_S, madd, mmul, transpose. cbn [cols rows].
    rewrite (cfg_H s Hcfg). reflexivity. }
  assert (HE : forall a b, (a < 2)%nat -> (b < 2)%nat ->
            lidar_S s a 0%nat * Si 0%nat b + lidar_S s a 1%nat * Si 1%nat b
            = if Nat.eqb a b then 1 else 0).
  { intros a b Ha Hb. pose proof (Hinv a b Ha Hb) as H.
    unfold mmul, Identity in H. cbn [mcoeff] in H. rewrite HScols in H.
    cbn [sum_upto] in H. fold Si in H. lra. }
  rewrite (UpdateLidar_x_coeff s meas_package k Hcfg). fold z.
  rewrite !(lidar_K_coeff s) by assumption. fold Si.
  pose proof (HE k 0%nat Hk ltac:(lia)) as E0.
  pose proof (HE k 1%nat Hk ltac:(lia)) as E1.
  rewrite !(lidar_S_coeff s) in E0, E1 by (assumption || lia).
  assert (HA : P_ s k 0%nat * Si 0%nat 0%nat + P_ s k 1%nat * Si 1%nat 0%nat
               = (if Nat.eqb k 0 then 1 else 0) - 0.15 * 0.15 * Si k 0%nat)
    by (do 2 (destruct k as [| k]; [cbn [Nat.eqb] in *; lra |]); lia).
  assert (HB : P_ s k 0%nat * Si 0%nat 1%nat + P_ s k 1%nat * Si 1%nat 1%nat
               = (if Nat.eqb k 1 then 1 else 0) - 0.15 * 0.15 * Si k 1%nat)
    by (do 2 (destruct k as [| k]; [cbn [Nat.eqb] in *; lra |]); lia).
  rewrite HA, HB.
  do 2 (destruct k as [| k]; [cbn [Nat.eqb]; ring |]). lia.
Qed.

(** X12: a filter that is certain ignores the lidar.  When the state
    covariance is zero, [UpdateLidar] leaves the mean as it is and the
    covariance zero, whatever the sample and whatever [inverse()]
    returns. *)
Theorem UpdateLidar_certain (s : UKF) (meas_package : MeasurementPackage) :
  configured s ->
  (forall r k, (r < 5)%nat -> (k < 5)%nat -> P_ s r k = 0) ->
  (forall r, (r < 5)%nat -> x_ (UpdateLidar s meas_package) r = x_ s r) /\
  (forall r k, (r < 5)%nat -> (k < 5)%nat ->
     P_ (UpdateLidar s meas_package) r k = 0).
Proof.
  intros Hcfg Hzero.
  assert (HK : forall r k, (r < 5)%nat -> lidar_K s r k = 0).
  { intros r k Hr. rewrite (lidar_K_coeff s r k Hcfg).
    rewrite !Hzero by lia. ring. }
  split.
  - intros r Hr. rewrite (UpdateLidar_x_coeff s meas_package r Hcfg).
    rewrite !HK by assumption. ring.
  - intros r k Hr Hk. rewrite (UpdateLidar_P_coeff s meas_package r k Hcfg Hr).
    rewrite !HK by assumption. rewrite !Hzero by lia. ring.
Qed.


(** ** Symmetry of the covariances *)









(** ** The turning circle of the CTRV model *)

(** X15: a turning point moves along its turning circle.  For a column
    of [Xsig_aug_] with [fabs yawd > 0.001] and no acceleration noise, the
    predicted position lies on the circle of radius [v / yawd] about the
    centre [(p_x - v/yawd * sin yaw, p_y + v/yawd * cos yaw)], on which
    the point started, at the angle [yaw + yawd * delta_t]. *)
Theorem ctrv_turning_circle (s : UKF) (delta_t : R) (i : nat) :
  (i < 2 * n_aug_ s + 1)%nat ->
  fabs (Xsig_aug_ s 4%nat i) > 0.001 ->
  Xsig_aug_ s 5%nat i = 0 ->
  let p_x := Xsig_aug_ s 0%nat i in
  let p_y := Xsig_aug_ s 1%nat i in
  let yaw := Xsig_aug_ s 3%nat i in
  let yawd := Xsig_aug_ s 4%nat i in
  let rho := Xsig_aug_ s 2%nat i / yawd in
  let c_x := p_x - rho * sin yaw in
  let c_y := p_y + rho * cos yaw in
  let Xsig_pred := Xsig_pred_ (SigmaPointPrediction s delta_t) in
  Xsig_pred 0%nat i = c_x + rho * sin (yaw + yawd * delta_t) /\
  Xsig_pred 1%nat i = c_y - rho * cos (yaw + yawd * delta_t) /\
  (p_x - c_x) * (p_x - c_x) + (p_y - c_y) * (p_y - c_y) = rho * rho /\
  (Xsig_pred 0%nat i - c_x) * (Xsig_pred 0%nat i - c_x)
  + (Xsig_pred 1%nat i - c_y) * (Xsig_pred 1%nat i - c_y) = rho * rho.
Proof.
  intros Hi Hturn Hnoise p_x p_y yaw yawd rho c_x c_y Xsig_pred.
  assert (H0 : Xsig_pred 0%nat i = c_x + rho * sin (yaw + yawd * delta_t)).
  { unfold Xsig_pred. rewrite Xsig_pred_column by (assumption || lia).
    unfold predict_column. rewrite Hnoise.
    destruct (Rgt_dec _ _) as [_ | Hn]; [| contradiction].
    eigen. rewrite !Nat.eqb_refl. cbn [Nat.eqb andb].
    unfold c_x, rho, p_x, yaw, yawd. ring. }
  assert (H1 : Xsig_pred 1%nat i = c_y - rho * cos (yaw + yawd * delta_t)).
  { unfold Xsig_pred. rewrite Xsig_pred_column by (assumption || lia).
    unfold predict_column. rewrite Hnoise.
    destruct (Rgt_dec _ _) as [_ | Hn]; [| contradiction].
    eigen. rewrite !Nat.eqb_refl. cbn [Nat.eqb andb].
    unfold c_y, rho, p_y, yaw, yawd. ring. }
  split; [exact H0 |]. split; [exact H1 |].
  pose proof (sin2_cos2 yaw) as Ha.
  pose proof (sin2_cos2 (yaw + yawd * delta_t)) as Hb.
  unfold Rsqr in Ha, Hb.
  split.
  - unfold c_x, c_y. nra.
  - rewrite H0, H1. nra.
Qed.


(** ** The components the CTRV model moves linearly *)

Lemma Xsig_aug_weighted_mean (s : UKF) (r : nat) :
  configured s ->
  sum_upto 15 (fun i => weights_ s i * Xsig_aug_ (AugmentedSigmaPoints s) r i)
  = x_aug s r.
Proof.
  intros Hcfg.
  assert (HN : (2 * n_aug_ s + 1 = 15)%nat)
    by (rewrite (cfg_n_aug s Hcfg); reflexivity).
  rewrite (sum_upto_ext _ _
             (fun i => weights_ s i * x_aug s r
                       + weights_ s i * sigma_offset s i r)).
  - rewrite (weighted_constant s _ _ Hcfg), (sigma_offset_mean s r Hcfg). ring.
  - intros i Hi. rewrite Xsig_aug_offset by lia. ring.
Qed.

Lemma predict_column_linear (s : UKF) (dt : R) (i : nat) (X : MatrixXd) :
  predict_column s dt i X 2%nat i
  = Xsig_aug_ s 2%nat i + Xsig_aug_ s 5%nat i * dt /\
  predict_column s dt i X 3%nat i
  = Xsig_aug_ s 3%nat i + Xsig_aug_ s 4%nat i * dt
    + 0.5 * Xsig_aug_ s 6%nat i * dt * dt /\
  predict_column s dt i X 4%nat i
  = Xsig_aug_ s 4%nat i + Xsig_aug_ s 6%nat i * dt.
Proof.
  unfold predict_column.
  destruct (Rgt_dec _ _); eigen; rewrite !Nat.eqb_refl; cbn [Nat.eqb andb];
    repeat split; reflexivity.
Qed.

(** X16: speed, heading and yaw rate are predicted exactly.  For every
    configured object, every [delta_t] and whatever matrix the Cholesky
    call returns, the mean after [Prediction] keeps the speed and the yaw
    rate and advances the heading by yaw rate times [delta_t]: the process
    noise and the spread of the sigma points cancel in the components the
    motion model moves linearly. *)
Theorem Prediction_linear_mean (s : UKF) (delta_t : R) :
  configured s ->
  x_ (Prediction s delta_t) 2%nat = x_ s 2%nat /\
  x_ (Prediction s delta_t) 3%nat = x_ s 3%nat + x_ s 4%nat * delta_t /\
  x_ (Prediction s delta_t) 4%nat = x_ s 4%nat.
Proof.
  intros Hcfg.
  assert (HN : (2 * n_aug_ s + 1 = 15)%nat)
    by (rewrite (cfg_n_aug s Hcfg); reflexivity).
  set (X := Xsig_aug_ (AugmentedSigmaPoints s)).
  set (w := weights_ s).
  assert (Hcol : forall r i, (i < 15)%nat -> (r < 5)%nat ->
            for_loop 15 (predict_column (AugmentedSigmaPoints s) delta_t)
              (Xsig_pred_ s) r i
            = predict_column (AugmentedSigmaPoints s) delta_t i (Xsig_pred_ s) r i).
  { intros r i Hi Hr.
    apply (for_loop_columns (predict_column (AugmentedSigmaPoints s) delta_t)
             (fun r i => predict_column (AugmentedSigmaPoints s) delta_t i
                           (Xsig_pred_ s) r i) 5).
    - intros; apply predict_column_frame; assumption.
    - intros; apply predict_column_write; assumption.
    - exact Hi.
    - exact Hr. }
  assert (Hmean : forall r, (r < 5)%nat ->
            x_ (Prediction s delta_t) r
            = sum_upto 15
                (fun i => w i * predict_column (AugmentedSigmaPoints s) delta_t
                                  i (Xsig_pred_ s) r i)).
  { intros r Hr. unfold Prediction. rewrite PredictMeanAndCovariance_x.
    cbn [n_aug_ weights_ SigmaPointPrediction AugmentedSigmaPoints
           set_Xsig_pred_ set_Xsig_aug_ Xsig_pred_].
    rewrite HN. apply sum_upto_ext. intros i Hi.
    rewrite Hcol by assumption. reflexivity. }
  assert (Hsum : forall r, w = weights_ s ->
            sum_upto 15 (fun i => w i * X r i) = x_aug s r)
    by (intros r ->; apply Xsig_aug_weighted_mean; exact Hcfg).
  destruct (x_aug_coeff s) as (_ & Hx & Hx5 & Hx6).
  pose proof (Hsum 2%nat eq_refl) as M2. pose proof (Hsum 3%nat eq_refl) as M3.
  pose proof (Hsum 4%nat eq_refl) as M4. pose proof (Hsum 5%nat eq_refl) as M5.
  pose proof (Hsum 6%nat eq_refl) as M6.
  rewrite Hx in M2, M3, M4 by lia. rewrite Hx5 in M5. rewrite Hx6 in M6.
  split; [| split].
  - rewrite Hmean by lia.
    rewrite (sum_upto_ext _ _
               (fun i => w i * X 2%nat i + (w i * X 5%nat i) * delta_t)).
    + rewrite sum_upto_plus, sum_upto_scal, M2, M5. ring.
    + intros i Hi.
      destruct (predict_column_linear (AugmentedSigmaPoints s) delta_t i
                  (Xsig_pred_ s)) as (-> & _ & _).
      fold X. ring.
  - rewrite Hmean by lia.
    rewrite (sum_upto_ext _ _
               (fun i => (w i * X 3%nat i + (w i * X 4%nat i) * delta_t)
                         + (w i * X 6%nat i) * (0.5 * delta_t * delta_t))).
    + rewrite sum_upto_plus, sum_upto_plus, !sum_upto_scal, M3, M4, M6. ring.
    + intros i Hi.
      destruct (predict_column_linear (AugmentedSigmaPoints s) delta_t i
                  (Xsig_pred_ s)) as (_ & -> & _).
      fold X. ring.
  - rewrite Hmean by lia.
    rewrite (sum_upto_ext _ _
               (fun i => w i * X 4%nat i + (w i * X 6%nat i) * delta_t)).
    + rewrite sum_upto_plus, sum_upto_scal, M4, M6. ring.
    + intros i Hi.
      destruct (predict_column_linear (AugmentedSigmaPoints s) delta_t i
                  (Xsig_pred_ s)) as (_ & _ & ->).
      fold X. ring.
Qed.


End Filter.

(** * The Eigen instances *)

Lemma cofactor_inverse_shape (m : MatrixXd) :
  rows (cofactor_inverse m) = rows m /\ cols (cofactor_inverse m) = cols m.
Proof. split; reflexivity. Qed.

(** On 2x2 and 3x3 matrices with a non-zero determinant the cofactor
    inverse is an inverse. *)
Lemma cofactor_inverse_2 (m : MatrixXd) (r k : nat) :
  rows m = 2%nat -> cols m = 2%nat ->
  m 0%nat 0%nat * m 1%nat 1%nat - m 0%nat 1%nat * m 1%nat 0%nat <> 0 ->
  (r < 2)%nat -> (k < 2)%nat ->
  mmul m (cofactor_inverse m) r k = Identity 2 2 r k.
Proof.
  intros Hr Hc Hdet Hlr Hlk. unfold mmul, cofactor_inverse, Identity.
  cbn [mcoeff rows cols]. rewrite Hr, Hc. cbn [sum_upto].
  do 2 (destruct r as [| r];
        [do 2 (destruct k as [| k]; [cbn [Nat.eqb Nat.sub]; field; exact Hdet |]);
         lia |]).
  lia.
Qed.

Lemma cofactor_inverse_3 (m : MatrixXd) (r k : nat) :
  rows m = 3%nat -> cols m = 3%nat ->
  sum_upto 3 (fun j => m 0%nat j * cofactor3 m j 0%nat) <> 0 ->
  (r < 3)%nat -> (k < 3)%nat ->
  mmul m (cofactor_inverse m) r k = Identity 3 3 r k.
Proof.
  intros Hr Hc Hdet Hlr Hlk. unfold mmul, cofactor_inverse, Identity.
  cbn [mcoeff rows cols]. rewrite Hr, Hc.
  unfold cofactor3 in *. cbn [sum_upto] in *.
  do 3 (destruct r as [| r];
        [do 3 (destruct k as [| k];
               [cbn [Nat.eqb Nat.add Nat.modulo Nat.divmod fst snd Nat.sub] in *;
                field; intros Hz; apply Hdet;
                etransitivity; [| exact Hz]; ring |]);
         lia |]).
  lia.
Qed.

Example cholesky_spd_2x2 :
  cholesky spd_2x2 0%nat 0%nat = 2 /\ cholesky spd_2x2 0%nat 1%nat = 0 /\
  cholesky spd_2x2 1%nat 0%nat = 1 /\ cholesky spd_2x2 1%nat 1%nat = 2.
Proof.
  assert (Hsqrt : sqrt 4 = 2).
  { replace 4 with (2 * 2) by ring. apply sqrt_square. lra. }
  unfold cholesky, spd_2x2.
  cbn [rows for_loop Nat.sub Nat.add sum_upto mset mfill mcoeff cols Nat.eqb andb].
  replace (4 - 0) with 4 by ring. rewrite Hsqrt.
  replace (5 - (0 + (2 - 0) / 2 * ((2 - 0) / 2))) with 4 by field.
  rewrite Hsqrt.
  repeat split; lra.
Qed.

Lemma atan2_east : atan2 0 1 = 0.
Proof.
  unfold atan2. destruct (Rlt_dec 0 1) as [_ | H]; [| lra].
  replace (0 / 1) with 0 by lra. exact atan_0.
Qed.

(** The lowest residual: for the sample [radar_due_west], whose bearing
    is [-M_PI], against [ukf_due_east] the predicted bearing is 0 and the
    two loops keep the residual bearing [-M_PI], the least value they can
    return; it lies inside (-pi, pi]. *)
Example radar_residual_lowest :
  let out :=
    PredictRadarMeasurement ukf_due_east (VectorXd_alloc 3) (MatrixXd_alloc 3 3) in
  let z_pred := snd (fst out) in
  radar_residual (raw_measurements_ radar_due_west) z_pred 1%nat = - M_PI /\
  - PI < radar_residual (raw_measurements_ radar_due_west) z_pred 1%nat <= PI.
Proof.
  intros out z_pred.
  assert (Hz : z_pred 1%nat = 0).
  { subst z_pred out. rewrite PredictRadarMeasurement_z_pred.
    apply (Rplus_eq_reg_l 0). rewrite Rplus_0_r, Rplus_0_l.
    rewrite (sum_upto_ext _ _ (fun _ => 0)).
    - cbn. lra.
    - intros i Hi. rewrite Zsig_column by (assumption || lia).
      unfold measure_column. eigen. cbn [Nat.eqb andb].
      rewrite Nat.eqb_refl. cbn [ukf_due_east Xsig_pred_ set_Xsig_pred_
        set_is_initialized_ mcoeff Nat.eqb]. rewrite atan2_east. ring. }
  assert (Hres : radar_residual (raw_measurements_ radar_due_west) z_pred 1%nat
                 = - M_PI).
  { unfold radar_residual. rewrite normalize_at_coeff. cbn [Nat.eqb].
    eigen. rewrite Hz. cbn [radar_due_west raw_measurements_ vcoeff].
    replace (- M_PI - 0) with (- M_PI) by ring.
    apply normalize_angle_id. pose proof M_PI_pos. lra. }
  split; [exact Hres |]. rewrite Hres.
  pose proof M_PI_pos. pose proof M_PI_lt_PI. lra.
Qed.

(** * Where the stated claims fail *)


(** C7, as stated, fails: before initialisation a sample with an
    unrecognised tag does not end the process; the call returns and the
    object is unchanged. *)
Lemma unknown_sensor_before_initialization :
  is_initialized_ UKF_new = false /\
  ProcessMeasurement cholesky cofactor_inverse UKF_new unknown_sample
  = Returned UKF_new /\
  ~ (exists status out,
       ProcessMeasurement cholesky cofactor_inverse UKF_new unknown_sample
       = Exited status out).
Proof.
  split; [reflexivity |]. split; [reflexivity |].
  intros (status & out & H). discriminate H.
Qed.

(** * The theorems at concrete objects *)

Lemma AugmentedSigmaPoints_spec_witness :
  configured UKF_new /\
  (forall i r, (i < n_aug_ UKF_new)%nat ->
     Xsig_aug_ (AugmentedSigmaPoints cholesky UKF_new) r (i + 1)%nat
     - x_aug UKF_new r
     = - (Xsig_aug_ (AugmentedSigmaPoints cholesky UKF_new) r
            (i + 1 + n_aug_ UKF_new)%nat
          - x_aug UKF_new r)).
Proof.
  assert (Hcfg : configured UKF_new) by (constructor; reflexivity).
  split; [exact Hcfg |].
  exact (proj2 (proj2 (proj2 (proj2 (proj2
           (AugmentedSigmaPoints_spec cholesky UKF_new Hcfg)))))).
Defined.

Lemma SigmaPointPrediction_spec_witness :
  (0 < 2 * n_aug_ ukf_due_east + 1)%nat /\
  Xsig_pred_ (SigmaPointPrediction ukf_due_east 0.05) 2%nat 0%nat
  = Xsig_aug_ ukf_due_east 2%nat 0%nat
    + Xsig_aug_ ukf_due_east 5%nat 0%nat * 0.05.
Proof.
  assert (Hi : (0 < 2 * n_aug_ ukf_due_east + 1)%nat) by (simpl; lia).
  split; [exact Hi |].
  exact (proj1 (proj2 (proj2
           (SigmaPointPrediction_spec ukf_due_east 0.05 0%nat Hi)))).
Defined.

Lemma UpdateRadar_spec_witness :
  (forall m, rows (cofactor_inverse m) = rows m /\
             cols (cofactor_inverse m) = cols m) /\
  configured ukf_spread /\
  (forall i, (i < 15)%nat ->
     range (Xsig_pred_ ukf_spread 0%nat i) (Xsig_pred_ ukf_spread 1%nat i)
     <> 0) /\
  (forall i,
     let out :=
       PredictRadarMeasurement ukf_spread (VectorXd_alloc (n_z_ ukf_spread))
         (MatrixXd_alloc (n_z_ ukf_spread) (n_z_ ukf_spread)) in
     let Zsig := Zsig_ (fst (fst out)) in
     let z_pred := snd (fst out) in
     - M_PI <= z_diff Zsig z_pred i 1%nat <= M_PI /\
     - PI < z_diff Zsig z_pred i 1%nat <= PI /\
     exists n : Z,
       z_diff Zsig z_pred i 1%nat
       = Zsig 1%nat i - z_pred 1%nat + 2 * IZR n * M_PI).
Proof.
  assert (Hshape : forall m, rows (cofactor_inverse m) = rows m /\
                             cols (cofactor_inverse m) = cols m)
    by (intros m; split; reflexivity).
  assert (Hcfg : configured ukf_spread) by (constructor; reflexivity).
  assert (Hrange : forall i, (i < 15)%nat ->
            range (Xsig_pred_ ukf_spread 0%nat i) (Xsig_pred_ ukf_spread 1%nat i)
            <> 0).
  { intros i _.
    change (range (1 + INR i) 1 <> 0).
    apply Rgt_not_eq, Rlt_gt, range_positive.
    intros Heq. inversion Heq. lra. }
  split; [exact Hshape |]. split; [exact Hcfg |]. split; [exact Hrange |].
  exact (proj1 (proj2 (proj2 (proj2 (proj2 (proj2
           (UpdateRadar_spec cofactor_inverse Hshape ukf_spread
              radar_due_west Hcfg Hrange))))))).
Defined.

Lemma UpdateLidar_spec_witness :
  (forall m, rows (cofactor_inverse m) = rows m /\
             cols (cofactor_inverse m) = cols m) /\
  configured ukf_due_east /\
  (forall k, (k < 2)%nat ->
     vsub (head (raw_measurements_ lidar_sample) 2)
       (mvec (H_ ukf_due_east) (x_ ukf_due_east)) k
     = raw_measurements_ lidar_sample k - x_ ukf_due_east k).
Proof.
  assert (Hshape : forall m, rows (cofactor_inverse m) = rows m /\
                             cols (cofactor_inverse m) = cols m)
    by (intros m; split; reflexivity).
  assert (Hcfg : configured ukf_due_east) by (constructor; reflexivity).
  split; [exact Hshape |]. split; [exact Hcfg |].
  exact (proj1 (proj2 (proj2 (proj2 (proj2
           (UpdateLidar_spec cofactor_inverse Hshape ukf_due_east
              lidar_sample Hcfg)))))).
Defined.

Lemma first_measurement_witness :
  is_initialized_ UKF_new = false /\ vsize (x_ UKF_new) = 5%nat /\
  exists s',
    ProcessMeasurement cholesky cofactor_inverse UKF_new lidar_sample
    = Returned s' /\
    is_initialized_ s' = true /\
    x_ s' 0%nat = 1 /\ x_ s' 1%nat = 1 /\ x_ s' 2%nat = 0.
Proof.
  split; [reflexivity |]. split; [reflexivity |].
  destruct (first_measurement cholesky cofactor_inverse UKF_new lidar_sample
              eq_refl eq_refl) as (s' & Hret & _ & Hlaser & _).
  destruct (Hlaser eq_refl) as (H0 & H1 & H2 & _ & _ & _ & Hinit & _).
  exists s'. repeat split; assumption.
Defined.

Lemma unknown_sensor_witness :
  sensor_type_ unknown_sample = UNKNOWN /\
  ProcessMeasurement cholesky cofactor_inverse ukf_due_east unknown_sample
  = Exited 1 "Error: Unknown measurement source.".
Proof.
  split; [reflexivity |].
  exact (unknown_sensor cholesky cofactor_inverse ukf_due_east unknown_sample
           eq_refl).
Defined.

Lemma disabled_sensor_predicts_only_witness :
  is_initialized_ ukf_radar_off = true /\
  (sensor_type_ radar_due_west = RADAR /\ use_radar_ ukf_radar_off = false) /\
  exists s',
    ProcessMeasurement cholesky cofactor_inverse ukf_radar_off radar_due_west
    = Returned s' /\
    s' = Prediction cholesky (set_time_ ukf_radar_off 0) (IZR (0 - 0) / 1.0e6) /\
    time_ s' = 0%Z.
Proof.
  split; [reflexivity |]. split; [split; reflexivity |].
  destruct (disabled_sensor_predicts_only cholesky cofactor_inverse
              ukf_radar_off radar_due_west eq_refl
              (or_introl (conj eq_refl eq_refl)))
    as (s' & Hret & Heq & Htime & _).
  exists s'. repeat split; assumption.
Defined.

Lemma Prediction_zero_mean_witness :
  configured ukf_due_east /\
  (forall r, (r < 5)%nat ->
     x_ (Prediction cholesky ukf_due_east 0) r = x_ ukf_due_east r).
Proof.
  assert (Hcfg : configured ukf_due_east) by (constructor; reflexivity).
  split; [exact Hcfg |].
  exact (proj2 (proj2 (Prediction_zero_mean cholesky ukf_due_east Hcfg))).
Defined.


(** * The further properties at concrete objects *)

Lemma configured_ProcessMeasurement_witness :
  configured UKF_new /\
  ProcessMeasurement cholesky cofactor_inverse UKF_new lidar_sample
  = Returned ukf_started /\
  configured ukf_started.
Proof.
  assert (Hcfg : configured UKF_new) by (constructor; reflexivity).
  assert (Hret : ProcessMeasurement cholesky cofactor_inverse UKF_new
                   lidar_sample = Returned ukf_started) by reflexivity.
  split; [exact Hcfg |]. split; [exact Hret |].
  exact (configured_ProcessMeasurement cholesky cofactor_inverse UKF_new
           ukf_started lidar_sample Hcfg Hret).
Defined.

Lemma ProcessMeasurement_keeps_witness :
  ProcessMeasurement cholesky cofactor_inverse UKF_new lidar_sample
  = Returned ukf_started /\
  (is_initialized_ ukf_started = true ->
   time_ ukf_started = timestamp_ lidar_sample).
Proof.
  assert (Hret : ProcessMeasurement cholesky cofactor_inverse UKF_new
                   lidar_sample = Returned ukf_started) by reflexivity.
  split; [exact Hret |].
  exact (proj2 (proj2 (proj2
           (ProcessMeasurement_keeps cholesky cofactor_inverse UKF_new
              ukf_started lidar_sample Hret)))).
Defined.

Lemma normalize_angle_periodic_witness :
  - M_PI < normalize_angle 0 < M_PI /\
  normalize_angle (0 + 2 * IZR 1 * M_PI) = normalize_angle 0.
Proof.
  assert (Hin : - M_PI < normalize_angle 0 < M_PI).
  { rewrite normalize_angle_id; unfold M_PI; lra. }
  split; [exact Hin |].
  exact (normalize_angle_periodic 0 1 Hin).
Defined.

Lemma sigma_points_moments_witness :
  configured ukf_started /\
  (forall r,
     sum_upto 15
       (fun i => weights_ ukf_started i
                 * Xsig_aug_ (AugmentedSigmaPoints cholesky ukf_started) r i)
     = x_aug ukf_started r).
Proof.
  assert (Hcfg : configured ukf_started) by (constructor; reflexivity).
  split; [exact Hcfg |].
  exact (proj1 (sigma_points_moments cholesky ukf_started Hcfg)).
Defined.

Lemma Prediction_zero_covariance_witness :
  configured ukf_started /\
  (forall r k, (r < 5)%nat -> (k < 5)%nat ->
     sum_upto 7
       (fun j => sqrt_diagonal (P_aug ukf_started) r j
                 * sqrt_diagonal (P_aug ukf_started) k j)
     = P_ ukf_started r k) /\
  (forall r k, (r < 5)%nat -> (k < 5)%nat -> r <> 3%nat -> k <> 3%nat ->
     P_ (Prediction sqrt_diagonal ukf_started 0) r k = P_ ukf_started r k).
Proof.
  assert (Hcfg : configured ukf_started) by (constructor; reflexivity).
  assert (Hchol : forall r k, (r < 5)%nat -> (k < 5)%nat ->
            sum_upto 7
              (fun j => sqrt_diagonal (P_aug ukf_started) r j
                        * sqrt_diagonal (P_aug ukf_started) k j)
            = P_ ukf_started r k).
  { intros r k Hr Hk.
    assert (Hhalf : sqrt (1 * 0.5) * sqrt (1 * 0.5) = 1 * 0.5)
      by (apply sqrt_sqrt; lra).
    do 5 (destruct r as [| r];
          [do 5 (destruct k as [| k]; [simpl; lra |]); lia |]).
    lia. }
  split; [exact Hcfg |]. split; [exact Hchol |].
  exact (proj1 (Prediction_zero_covariance sqrt_diagonal ukf_started Hcfg Hchol)).
Defined.

Lemma stale_sample_keeps_mean_witness :
  configured ukf_radar_off /\
  is_initialized_ ukf_radar_off = true /\
  timestamp_ radar_due_west = time_ ukf_radar_off /\
  (sensor_type_ radar_due_west = RADAR /\ use_radar_ ukf_radar_off = false) /\
  exists s',
    ProcessMeasurement cholesky cofactor_inverse ukf_radar_off radar_due_west
    = Returned s' /\
    time_ s' = time_ ukf_radar_off /\
    forall r, (r < 5)%nat -> x_ s' r = x_ ukf_radar_off r.
Proof.
  assert (Hcfg : configured ukf_radar_off) by (constructor; reflexivity).
  split; [exact Hcfg |]. split; [reflexivity |]. split; [reflexivity |].
  split; [split; reflexivity |].
  exact (stale_sample_keeps_mean cholesky cofactor_inverse ukf_radar_off
           radar_due_west Hcfg eq_refl eq_refl
           (or_introl (conj eq_refl eq_refl))).
Defined.


Lemma Prediction_linear_mean_witness :
  configured ukf_started /\
  x_ (Prediction cholesky ukf_started 0.05) 2%nat = x_ ukf_started 2%nat /\
  x_ (Prediction cholesky ukf_started 0.05) 3%nat
  = x_ ukf_started 3%nat + x_ ukf_started 4%nat * 0.05 /\
  x_ (Prediction cholesky ukf_started 0.05) 4%nat = x_ ukf_started 4%nat.
Proof.
  assert (Hcfg : configured ukf_started) by (constructor; reflexivity).
  split; [exact Hcfg |].
  exact (Prediction_linear_mean cholesky ukf_started 0.05 Hcfg).
Defined.

Lemma ctrv_turning_circle_witness :
  (0 < 2 * n_aug_ ukf_turning + 1)%nat /\
  fabs (Xsig_aug_ ukf_turning 4%nat 0%nat) > 0.001 /\
  Xsig_aug_ ukf_turning 5%nat 0%nat = 0 /\
  Xsig_pred_ (SigmaPointPrediction ukf_turning 0.05) 0%nat 0%nat
  = Xsig_aug_ ukf_turning 0%nat 0%nat
    - Xsig_aug_ ukf_turning 2%nat 0%nat / Xsig_aug_ ukf_turning 4%nat 0%nat
      * sin (Xsig_aug_ ukf_turning 3%nat 0%nat)
    + Xsig_aug_ ukf_turning 2%nat 0%nat / Xsig_aug_ ukf_turning 4%nat 0%nat
      * sin (Xsig_aug_ ukf_turning 3%nat 0%nat
             + Xsig_aug_ ukf_turning 4%nat 0%nat * 0.05).
Proof.
  assert (Hi : (0 < 2 * n_aug_ ukf_turning + 1)%nat) by (simpl; lia).
  assert (Hturn : fabs (Xsig_aug_ ukf_turning 4%nat 0%nat) > 0.001).
  { simpl. unfold fabs. rewrite Rabs_R1. lra. }
  assert (Hnoise : Xsig_aug_ ukf_turning 5%nat 0%nat = 0) by reflexivity.
  split; [exact Hi |]. split; [exact Hturn |]. split; [exact Hnoise |].
  exact (proj1 (ctrv_turning_circle ukf_turning 0.05 0%nat Hi Hturn Hnoise)).
Defined.


Lemma UpdateLidar_certain_witness :
  (forall m, rows (cofactor_inverse m) = rows m /\
             cols (cofactor_inverse m) = cols m) /\
  configured ukf_certain /\
  (forall r k, (r < 5)%nat -> (k < 5)%nat -> P_ ukf_certain r k = 0) /\
  (forall r, (r < 5)%nat ->
     x_ (UpdateLidar cofactor_inverse ukf_certain lidar_sample) r
     = x_ ukf_certain r).
Proof.
  assert (Hshape : forall m, rows (cofactor_inverse m) = rows m /\
                             cols (cofactor_inverse m) = cols m)
    by (intros m; split; reflexivity).
  assert (Hcfg : configured ukf_certain) by (constructor; reflexivity).
  assert (Hzero : forall r k, (r < 5)%nat -> (k < 5)%nat ->
            P_ ukf_certain r k = 0) by (intros; reflexivity).
  split; [exact Hshape |]. split; [exact Hcfg |]. split; [exact Hzero |].
  exact (proj1 (UpdateLidar_certain cofactor_inverse Hshape ukf_certain
                  lidar_sample Hcfg Hzero)).
Defined.

Lemma UpdateLidar_posterior_residual_witness :
  (forall m, rows (cofactor_inverse m) = rows m /\
             cols (cofactor_inverse m) = cols m) /\
  configured ukf_started /\
  (forall r k, (r < 2)%nat -> (k < 2)%nat ->
     mmul (lidar_S ukf_started) (cofactor_inverse (lidar_S ukf_started)) r k
     = Identity 2 2 r k) /\
  (forall k, (k < 2)%nat ->
     raw_measurements_ lidar_sample k
     - x_ (UpdateLidar cofactor_inverse ukf_started lidar_sample) k
     = 0.15 * 0.15
       * (cofactor_inverse (lidar_S ukf_started) k 0%nat
          * (raw_measurements_ lidar_sample 0%nat - x_ ukf_started 0%nat)
          + cofactor_inverse (lidar_S ukf_started) k 1%nat
            * (raw_measurements_ lidar_sample 1%nat - x_ ukf_started 1%nat))).
Proof.
  assert (Hshape : forall m, rows (cofactor_inverse m) = rows m /\
                             cols (cofactor_inverse m) = cols m)
    by (intros m; split; reflexivity).
  assert (Hcfg : configured ukf_started) by (constructor; reflexivity).
  assert (Hinv : forall r k, (r < 2)%nat -> (k < 2)%nat ->
            mmul (lidar_S ukf_started)
              (cofactor_inverse (lidar_S ukf_started)) r k
            = Identity 2 2 r k).
  { intros r k Hr Hk. apply cofactor_inverse_2; try reflexivity; try assumption.
    simpl. lra. }
  split; [exact Hshape |]. split; [exact Hcfg |]. split; [exact Hinv |].
  exact (UpdateLidar_posterior_residual cofactor_inverse Hshape ukf_started
           lidar_sample Hcfg Hinv).
Defined.
